(** * A model of ccache's [util] file and string primitives

    Shallow embedding of [src/util/file.cpp] (copy_file, create_cachedir_tag,
    fallocate, read_fd, read_file, read_file_part, rename, write_fd and both
    write_file overloads) and of the inline string helpers [ends_with], the
    two [join] overloads and the two [starts_with] overloads of
    [src/util/string.hpp].

    The operating system is modelled as an explicit world: a directory
    (path to inode), inode contents, an open-descriptor table (inode and
    offset), the thread's [errno], a log of the system calls made, and a
    schedule of outcomes: every [open], [read], [write], [posix_fallocate],
    [rename] and [calloc] call, and every [unlink] of an existing name,
    consumes the head of the schedule, which lets it fail with a given error
    or (for [write]) be cut short.  An empty
    schedule means every call behaves nominally.  Reads of regular files
    return [min(count, bytes left)] bytes unless they fail, as POSIX
    specifies for regular files.  Loops of the C++ code are written with a
    fuel argument computed from the world; for [write_fd], and for
    [read_file] and [read_file_part] in the worlds their theorems consider,
    the lemmas below show it is never exhausted. *)

From Stdlib Require Import ZArith Lia Ascii List.
From stdpp Require Import base gmap strings list pretty.

Open Scope Z_scope.

(** ** Errors *)

Inductive errno_t :=
  | EINTR | EAGAIN | EINVAL | ENOENT | EEXIST | EBADF | EIO | ENOSPC
  | ENOMEM | EACCES | EXDEV.

Definition errno_eqb (a b : errno_t) : bool :=
  match a, b with
  | EINTR, EINTR | EAGAIN, EAGAIN | EINVAL, EINVAL | ENOENT, ENOENT
  | EEXIST, EEXIST | EBADF, EBADF | EIO, EIO | ENOSPC, ENOSPC
  | ENOMEM, ENOMEM | EACCES, EACCES | EXDEV, EXDEV => true
  | _, _ => false
  end.

(** [strerror] (glibc texts). *)
Definition strerror (e : errno_t) : string :=
  match e with
  | EINTR => "Interrupted system call"
  | EAGAIN => "Resource temporarily unavailable"
  | EINVAL => "Invalid argument"
  | ENOENT => "No such file or directory"
  | EEXIST => "File exists"
  | EBADF => "Bad file descriptor"
  | EIO => "Input/output error"
  | ENOSPC => "No space left on device"
  | ENOMEM => "Cannot allocate memory"
  | EACCES => "Permission denied"
  | EXDEV => "Invalid cross-device link"
  end.

(** [Win32Util::error_message(GetLastError())] for the same conditions. *)
Definition win32_error_message (e : errno_t) : string :=
  String.append "Win32 error: " (strerror e).

(** [nonstd::expected<T, std::string>]. *)
Inductive expected (A : Type) : Type :=
  | Ok (a : A)
  | Err (msg : string).
Arguments Ok {A} a.
Arguments Err {A} msg.

(** ** Bytes and buffers *)

Abbreviation byte := Byte.byte.

(** [std::vector::resize] / [std::string::resize]: truncate or pad with 0. *)
Definition resize (n : nat) (l : list byte) : list byte :=
  firstn n l ++ repeat Byte.x00 (n - length l).

(** [read(fd, &buf[pos], ...)] storing [bs] into [buf] from index [pos]. *)
Definition splice (buf : list byte) (pos : nat) (bs : list byte) : list byte :=
  firstn pos buf ++ bs ++ skipn (pos + length bs) buf.

(** The contents of a regular file after writing [bs] at offset [off]
    (a hole before [off] reads as zeros). *)
Definition write_at (data : list byte) (off : nat) (bs : list byte) : list byte :=
  let padded := data ++ repeat Byte.x00 (off - length data) in
  firstn off padded ++ bs ++ skipn (off + length bs) padded.

(** ** The world *)

Inductive outcome :=
  | Nominal
  | Fail (e : errno_t)
  | Partial (k : nat).

Inductive whence := SEEK_SET | SEEK_CUR | SEEK_END.

Inductive event :=
  | Ev_open (p : string)
  | Ev_close (fd : Z)
  | Ev_read (fd : Z) (n : nat)
  | Ev_write (fd : Z) (n : nat)
  | Ev_lseek (fd : Z) (off : Z) (wh : whence)
  | Ev_unlink (p : string)
  | Ev_stat (p : string)
  | Ev_rename (a b : string)
  | Ev_fallocate (fd : Z) (len : nat)
  | Ev_calloc (n : nat).

Record world := mk_world {
  w_paths : gmap string nat;
  w_inodes : gmap nat (list byte);
  w_fds : gmap Z (nat * nat);
  w_next_ino : nat;
  w_next_fd : Z;
  w_errno : errno_t;
  w_sched : list outcome;
  w_log : list event;
}.

Definition set_paths (m : gmap string nat) (w : world) : world :=
  mk_world m (w_inodes w) (w_fds w) (w_next_ino w) (w_next_fd w) (w_errno w) (w_sched w) (w_log w).
Definition set_inodes (m : gmap nat (list byte)) (w : world) : world :=
  mk_world (w_paths w) m (w_fds w) (w_next_ino w) (w_next_fd w) (w_errno w) (w_sched w) (w_log w).
Definition set_fds (m : gmap Z (nat * nat)) (w : world) : world :=
  mk_world (w_paths w) (w_inodes w) m (w_next_ino w) (w_next_fd w) (w_errno w) (w_sched w) (w_log w).
Definition set_next_ino (n : nat) (w : world) : world :=
  mk_world (w_paths w) (w_inodes w) (w_fds w) n (w_next_fd w) (w_errno w) (w_sched w) (w_log w).
Definition set_next_fd (n : Z) (w : world) : world :=
  mk_world (w_paths w) (w_inodes w) (w_fds w) (w_next_ino w) n (w_errno w) (w_sched w) (w_log w).
Definition set_errno (e : errno_t) (w : world) : world :=
  mk_world (w_paths w) (w_inodes w) (w_fds w) (w_next_ino w) (w_next_fd w) e (w_sched w) (w_log w).
Definition set_sched (s : list outcome) (w : world) : world :=
  mk_world (w_paths w) (w_inodes w) (w_fds w) (w_next_ino w) (w_next_fd w) (w_errno w) s (w_log w).
Definition add_log (e : event) (w : world) : world :=
  mk_world (w_paths w) (w_inodes w) (w_fds w) (w_next_ino w) (w_next_fd w) (w_errno w) (w_sched w) (w_log w ++ [e]).

(** The outcome the environment gives to the next fallible call. *)
Definition pop (w : world) : outcome * world :=
  match w_sched w with
  | [] => (Nominal, w)
  | o :: os => (o, set_sched os w)
  end.

(** Contents of the file a path names. *)
Definition file_at (w : world) (p : string) : option (list byte) :=
  match w_paths w !! p with
  | Some ino => w_inodes w !! ino
  | None => None
  end.

(** ** State monad *)

Definition M (A : Type) : Type := world -> A * world.

Definition ret {A} (a : A) : M A := fun w => (a, w).
Definition bind {A B} (m : M A) (k : A -> M B) : M B :=
  fun w => let (a, w') := m w in k a w'.
Definition get_errno : M errno_t := fun w => (w_errno w, w).

Notation "'let*' x ':=' m 'in' k" := (bind m (fun x => k))
  (at level 200, x name, m at level 100, k at level 200).
Notation "'let*' ' p ':=' m 'in' k" := (bind m (fun x => match x with p => k end))
  (at level 200, p pattern, m at level 100, k at level 200).

(** [TRY(expr)]: propagate an error, continue with the value. *)
Definition try_ {A B} (m : M (expected A)) (k : A -> M (expected B)) : M (expected B) :=
  bind m (fun r => match r with Ok a => k a | Err s => ret (Err s) end).

(** ** System calls on regular files (POSIX semantics) *)

(** The open flags that matter on POSIX ([O_BINARY] and [O_TEXT] are 0). *)
Record oflags := { o_creat : bool; o_trunc : bool; o_excl : bool }.
Definition O_RDONLY : oflags := {| o_creat := false; o_trunc := false; o_excl := false |}.
Definition O_WRONLY_CREAT_TRUNC : oflags := {| o_creat := true; o_trunc := true; o_excl := false |}.
Definition O_RDWR_CREAT_EXCL : oflags := {| o_creat := true; o_trunc := false; o_excl := true |}.

Definition fail_with {A} (r : A) (e : errno_t) (w : world) : A * world := (r, set_errno e w).

Definition new_fd (ino : nat) (w : world) : Z * world :=
  let fd := w_next_fd w in
  (fd, set_next_fd (fd + 1) (set_fds (<[fd := (ino, 0%nat)]> (w_fds w)) w)).

Definition sys_open (p : string) (fl : oflags) : M Z := fun w0 =>
  let (o, w) := pop (add_log (Ev_open p) w0) in
  match o with
  | Fail e => fail_with (-1) e w
  | _ =>
    match w_paths w !! p with
    | Some ino =>
      if o_creat fl && o_excl fl then fail_with (-1) EEXIST w
      else new_fd ino (if o_trunc fl then set_inodes (<[ino := []]> (w_inodes w)) w else w)
    | None =>
      if o_creat fl then
        let ino := w_next_ino w in
        new_fd ino (set_next_ino (S ino)
          (set_inodes (<[ino := []]> (w_inodes w)) (set_paths (<[p := ino]> (w_paths w)) w)))
      else fail_with (-1) ENOENT w
    end
  end.

Definition sys_close (fd : Z) : M Z := fun w0 =>
  let w := add_log (Ev_close fd) w0 in
  match w_fds w !! fd with
  | Some _ => (0, set_fds (delete fd (w_fds w)) w)
  | None => fail_with (-1) EBADF w
  end.

(** [read(fd, buf, n)]: the bytes read are returned with the count.  On a
    regular file a read returns fewer than [n] bytes only at end of file. *)
Definition sys_read (fd : Z) (n : nat) : M (Z * list byte) := fun w0 =>
  let w1 := add_log (Ev_read fd n) w0 in
  match w_fds w1 !! fd with
  | None => fail_with (-1, []) EBADF w1
  | Some (ino, off) =>
    let (o, w) := pop w1 in
    match o with
    | Fail e => fail_with (-1, []) e w
    | _ =>
      let bs := firstn n (skipn off (default [] (w_inodes w !! ino))) in
      ((Z.of_nat (length bs), bs),
       set_fds (<[fd := (ino, (off + length bs)%nat)]> (w_fds w)) w)
    end
  end.

(** [write(fd, bs, length bs)]; a [Partial k] outcome writes only [k] bytes. *)
Definition sys_write (fd : Z) (bs : list byte) : M Z := fun w0 =>
  let w1 := add_log (Ev_write fd (length bs)) w0 in
  match w_fds w1 !! fd with
  | None => fail_with (-1) EBADF w1
  | Some (ino, off) =>
    let (o, w) := pop w1 in
    let chunk := match o with Partial k => firstn k bs | _ => bs end in
    match o with
    | Fail e => fail_with (-1) e w
    | _ =>
      let data := default [] (w_inodes w !! ino) in
      (Z.of_nat (length chunk),
       set_fds (<[fd := (ino, (off + length chunk)%nat)]> (w_fds w))
         (set_inodes (<[ino := write_at data off chunk]> (w_inodes w)) w))
    end
  end.

Definition sys_lseek (fd : Z) (off : Z) (wh : whence) : M Z := fun w0 =>
  let w := add_log (Ev_lseek fd off wh) w0 in
  match w_fds w !! fd with
  | None => fail_with (-1) EBADF w
  | Some (ino, cur) =>
    let base := match wh with
                | SEEK_SET => 0
                | SEEK_CUR => Z.of_nat cur
                | SEEK_END => Z.of_nat (length (default [] (w_inodes w !! ino)))
                end in
    let pos := base + off in
    if pos <? 0 then fail_with (-1) EINVAL w
    else (pos, set_fds (<[fd := (ino, Z.to_nat pos)]> (w_fds w)) w)
  end.

(** [unlink(p)]: removing an existing name consumes the head of the
    schedule, which lets it fail (as with [EACCES], [EPERM] or [EBUSY]) and
    leave the name in place; a missing name fails with [ENOENT]. *)
Definition sys_unlink (p : string) : M Z := fun w0 =>
  let w := add_log (Ev_unlink p) w0 in
  match w_paths w !! p with
  | Some _ =>
    let (o, w1) := pop w in
    match o with
    | Fail e => fail_with (-1) e w1
    | _ => (0, set_paths (delete p (w_paths w1)) w1)
    end
  | None => fail_with (-1) ENOENT w
  end.

(** [Stat::stat(path)]: the size, or nothing with [errno] set. *)
Definition sys_stat (p : string) : M (option nat) := fun w0 =>
  let w := add_log (Ev_stat p) w0 in
  match file_at w p with
  | Some data => (Some (length data), w)
  | None => fail_with None ENOENT w
  end.

(** POSIX [rename]: replaces an existing [b]; when [a] and [b] are links
    to the same file (in particular when they are the same path) it does
    nothing and succeeds. *)
Definition sys_rename (a b : string) : M Z := fun w0 =>
  let (o, w) := pop (add_log (Ev_rename a b) w0) in
  match o with
  | Fail e => fail_with (-1) e w
  | _ =>
    match w_paths w !! a with
    | None => fail_with (-1) ENOENT w
    | Some ino =>
      if bool_decide (w_paths w !! b = Some ino) then (0, w)
      else (0, set_paths (<[b := ino]> (delete a (w_paths w))) w)
    end
  end.

(** Windows [MoveFileExA(a, b, replace ? MOVEFILE_REPLACE_EXISTING : 0)];
    the error is left where [GetLastError] finds it. *)
Definition MoveFileExA (a b : string) (replace_existing : bool) : M bool := fun w0 =>
  let (o, w) := pop (add_log (Ev_rename a b) w0) in
  match o with
  | Fail e => fail_with false e w
  | _ =>
    match w_paths w !! a with
    | None => fail_with false ENOENT w
    | Some ino =>
      if String.eqb a b then (true, w)
      else if negb replace_existing && bool_decide (is_Some (w_paths w !! b))
      then fail_with false EEXIST w
      else (true, set_paths (<[b := ino]> (delete a (w_paths w))) w)
    end
  end.

(** [posix_fallocate(fd, 0, len)]: returns the error number (None for 0);
    it does not move the offset. *)
Definition sys_posix_fallocate (fd : Z) (len : nat) : M (option errno_t) := fun w0 =>
  let w1 := add_log (Ev_fallocate fd len) w0 in
  match w_fds w1 !! fd with
  | None => (Some EBADF, w1)
  | Some (ino, _) =>
    let (o, w) := pop w1 in
    match o with
    | Fail e => (Some e, w)
    | _ =>
      let data := default [] (w_inodes w !! ino) in
      (None, set_inodes (<[ino := data ++ repeat Byte.x00 (len - length data)]> (w_inodes w)) w)
    end
  end.

(** [calloc(n, 1)]: a zeroed buffer, or [NULL]. *)
Definition sys_calloc (n : nat) : M (option (list byte)) := fun w0 =>
  let (o, w) := pop (add_log (Ev_calloc n) w0) in
  match o with
  | Fail _ => (None, w)
  | _ => (Some (repeat Byte.x00 n), w)
  end.

(** [Fd]'s destructor / [Fd::close]. *)
Definition fd_close (fd : Z) : M unit := let* _ := sys_close fd in ret tt.

(** Errors built from [errno], as in [make_unexpected(strerror(errno))]. *)
Definition errno_error {A} : M (expected A) :=
  let* e := get_errno in ret (Err (strerror e)).

Definition fuel_exhausted : string := "fuel exhausted".

(** ** [util::write_fd] *)

Definition transient (e : errno_t) : bool := errno_eqb e EAGAIN || errno_eqb e EINTR.

(** The loop [while (written < size) { count = write(...); ... }]. *)
Fixpoint write_fd_loop (fuel : nat) (fd : Z) (data : list byte) (size written : nat)
  : M (expected unit) :=
  match fuel with
  | O => ret (Err fuel_exhausted)
  | S fuel' =>
    if (written <? size)%nat then
      let* count := sys_write fd (firstn (size - written) (skipn written data)) in
      if count =? -1 then
        let* e := get_errno in
        if negb (transient e) then ret (Err (strerror e))
        else write_fd_loop fuel' fd data size written
      else write_fd_loop fuel' fd data size (written + Z.to_nat count)
    else ret (Ok tt)
  end.

Definition write_fd (fd : Z) (data : list byte) (size : nat) : M (expected unit) :=
  fun w => write_fd_loop (S (S (length (w_sched w)))) fd data size 0 w.

(** ** [util::read_fd] *)

(** [CCACHE_READ_BUFFER_SIZE], a build-configuration constant (65536). *)
Definition CCACHE_READ_BUFFER_SIZE : nat := N.to_nat 65536.

Definition DataReceiver := list byte -> M unit.

(** The loop [while ((n = read(fd, buffer, sizeof(buffer))) != 0) ...];
    returns the last [n] ([None] when the fuel runs out). *)
Fixpoint read_fd_loop (fuel : nat) (fd : Z) (data_receiver : DataReceiver)
  : M (option Z) :=
  match fuel with
  | O => ret None
  | S fuel' =>
    let* '(n, bs) := sys_read fd CCACHE_READ_BUFFER_SIZE in
    if n =? 0 then ret (Some n)
    else
      let* e := get_errno in
      if (n =? -1) && negb (errno_eqb e EINTR) then ret (Some n)
      else
        let* _ := (if 0 <? n then data_receiver bs else ret tt) in
        read_fd_loop fuel' fd data_receiver
  end.

Definition fd_fuel (fd : Z) (w : world) : nat :=
  let size := match w_fds w !! fd with
              | Some (ino, _) => length (default [] (w_inodes w !! ino))
              | None => 0%nat
              end in
  S (length (w_sched w) + size).

Definition read_fd (fd : Z) (data_receiver : DataReceiver) : M (expected unit) :=
  fun w =>
    (let* n := read_fd_loop (fd_fuel fd w) fd data_receiver in
     match n with
     | None => ret (Err fuel_exhausted)
     | Some n => if n =? -1 then errno_error else ret (Ok tt)
     end) w.

(** ** [util::rename] *)

Definition rename (win32 : bool) (oldpath newpath : string) : M (expected unit) :=
  if negb win32 then
    let* r := sys_rename oldpath newpath in
    if negb (r =? 0) then errno_error else ret (Ok tt)
  else
    (* Windows' rename() won't overwrite an existing file. *)
    let* ok := MoveFileExA oldpath newpath true in
    if negb ok then
      let* e := get_errno in ret (Err (win32_error_message e))
    else ret (Ok tt).

(** ** [TemporaryFile] *)

(** Modelled from the spec: [TemporaryFile] (TemporaryFile.hpp/.cpp are not
    under src/).  "an owned descriptor plus its path, created adjacent to a
    target path, guaranteed removed on failure before the handle is
    destroyed": a fresh file [prefix.tmp.N] is created with
    [O_RDWR|O_CREAT|O_EXCL]; when creation fails nothing is left behind and
    an error is reported.  Destroying the handle after its descriptor has
    been moved out does not touch the file. *)
Definition TemporaryFile (path_prefix : string) : M (expected (Z * string)) :=
  fun w =>
    let path := String.append path_prefix (String.append ".tmp." (pretty (w_next_ino w))) in
    (let* fd := sys_open path O_RDWR_CREAT_EXCL in
     if fd =? -1 then
       ret (Err (String.append "Failed to create temporary file for " path_prefix))
     else ret (Ok (fd, path))) w.

(** ** [util::copy_file] *)

Inductive ViaTmpFile := ViaTmpFile_no | ViaTmpFile_yes.

Definition ViaTmpFile_eqb (a b : ViaTmpFile) : bool :=
  match a, b with
  | ViaTmpFile_no, ViaTmpFile_no | ViaTmpFile_yes, ViaTmpFile_yes => true
  | _, _ => false
  end.

Definition copy_file (win32 : bool) (src dest : string) (via_tmp_file : ViaTmpFile)
  : M (expected unit) :=
  let* src_fd := sys_open src O_RDONLY in
  if src_fd =? -1 then
    let* e := get_errno in
    ret (Err (String.append "Failed to open " (String.append src
              (String.append " for reading: " (strerror e)))))
  else
    let* _ := sys_unlink dest in
    let* opened := (if ViaTmpFile_eqb via_tmp_file ViaTmpFile_yes then
                    TemporaryFile dest
                  else
                    let* fd := sys_open dest O_WRONLY_CREAT_TRUNC in
                    if fd =? -1 then
                      let* e := get_errno in
                      ret (Err (String.append "Failed to open " (String.append dest
                                (String.append " for writing: " (strerror e)))))
                    else ret (Ok (fd, ""%string))) in
    match opened with
    | Err m => let* _ := fd_close src_fd in ret (Err m)
    | Ok (dest_fd, tmp_file) =>
      let* r := read_fd src_fd (fun data =>
                  (* the result of write_fd is discarded *)
                  let* _ := write_fd dest_fd data (length data) in ret tt) in
      match r with
      | Err m =>
        (* leaving scope: ~Fd of dest_fd, then of src_fd *)
        let* _ := fd_close dest_fd in
        let* _ := fd_close src_fd in
        ret (Err m)
      | Ok _ =>
        let* _ := fd_close dest_fd in
        let* _ := fd_close src_fd in
        if ViaTmpFile_eqb via_tmp_file ViaTmpFile_yes then
          let* result := rename win32 tmp_file dest in
          match result with
          | Err m => ret (Err (String.append "Failed to rename " (String.append tmp_file
                               (String.append " to " (String.append dest
                               (String.append ": " m))))))
          | Ok _ => ret (Ok tt)
          end
        else ret (Ok tt)
      end
    end.

(** ** [util::fallocate] *)

(** [HAVE_POSIX_FALLOCATE] is the build-time choice of the native path. *)
Definition fallocate (HAVE_POSIX_FALLOCATE : bool) (fd : Z) (new_size : nat)
  : M (expected unit) :=
  let* native := (if HAVE_POSIX_FALLOCATE then
                    let* posix_fallocate_err := sys_posix_fallocate fd new_size in
                    match posix_fallocate_err with
                    | None => ret (Some (Ok tt))
                    | Some EINVAL => ret None
                    | Some e => ret (Some (Err (strerror e)))
                    end
                  else ret None) in
  match native with
  | Some r => ret r
  | None =>
    (* The underlying filesystem does not support the operation so fall
       back to lseek. *)
    let* saved_pos := sys_lseek fd 0 SEEK_END in
    let* old_size := sys_lseek fd 0 SEEK_END in
    if old_size =? -1 then
      let* err := get_errno in
      let* _ := sys_lseek fd saved_pos SEEK_SET in
      ret (Err (strerror err))
    else if (new_size <=? Z.to_nat old_size)%nat then
      let* _ := sys_lseek fd saved_pos SEEK_SET in
      ret (Ok tt)
    else
      let bytes_to_write := (new_size - Z.to_nat old_size)%nat in
      let* buf := sys_calloc bytes_to_write in
      match buf with
      | None =>
        let* _ := sys_lseek fd saved_pos SEEK_SET in
        ret (Err (strerror ENOMEM))
      | Some buf =>
        let* result := write_fd fd buf bytes_to_write in
        match result with
        | Err m => ret (Err m)
        | Ok _ =>
          let* _ := sys_lseek fd saved_pos SEEK_SET in
          ret (Ok tt)
        end
      end
  end.

(** ** [util::read_file] (binary instantiations, POSIX) *)

(** The loop [while (true) { if (pos == result.size()) ... }]; returns the
    last [ret], [pos] and [result]. *)
Fixpoint read_file_loop (fuel : nat) (fd : Z) (pos : nat) (result : list byte)
  : M (option (Z * nat * list byte)) :=
  match fuel with
  | O => ret None
  | S fuel' =>
    let result := if (pos =? length result)%nat then resize (2 * length result) result
                  else result in
    let max_read := (length result - pos)%nat in
    let* '(r, bs) := sys_read fd max_read in
    let result := splice result pos bs in
    if r =? 0 then ret (Some (r, pos, result))
    else
      let* e := get_errno in
      if (r =? -1) && negb (errno_eqb e EINTR) then ret (Some (r, pos, result))
      else if 0 <? r then
        let pos := (pos + Z.to_nat r)%nat in
        if (Z.to_nat r <? max_read)%nat then ret (Some (r, pos, result))
        else read_file_loop fuel' fd pos result
      else read_file_loop fuel' fd pos result
  end.

(** The largest [size_t]. *)
Definition SIZE_MAX : Z := 2 ^ 64 - 1.

(** [size_hint = (size_hint < 1024) ? 1024 : size_hint + 1] in [size_t]
    arithmetic: [SIZE_MAX + 1] wraps to 0. *)
Definition read_file_buffer_size (size_hint : nat) : nat :=
  if (size_hint <? 1024)%nat then 1024%nat
  else Z.to_nat ((Z.of_nat size_hint + 1) mod 2 ^ 64).

Definition read_file (path : string) (size_hint : nat) : M (expected (list byte)) :=
  let* hint := (if (size_hint =? 0)%nat then
                  let* st := sys_stat path in
                  match st with
                  | None => errno_error
                  | Some size => ret (Ok size)
                  end
                else ret (Ok size_hint)) in
  match hint with
  | Err m => ret (Err m)
  | Ok size_hint =>
    let size_hint := read_file_buffer_size size_hint in
    let* fd := sys_open path O_RDONLY in
    if fd =? -1 then errno_error
    else
      let* w := (fun w => (w, w)) in
      let* loop := read_file_loop (fd_fuel fd w) fd 0 (resize size_hint []) in
      match loop with
      | None => let* _ := fd_close fd in ret (Err fuel_exhausted)
      | Some (r, pos, result) =>
        if r =? -1 then
          let* e := get_errno in
          let* _ := fd_close fd in
          ret (Err (strerror e))
        else
          let* _ := fd_close fd in
          ret (Ok (resize pos result))
      end
  end.

(** ** [util::read_file_part] *)

Fixpoint read_file_part_loop (fuel : nat) (fd : Z) (count bytes_read : nat)
  (result : list byte) : M (option (Z * nat * list byte)) :=
  match fuel with
  | O => ret None
  | S fuel' =>
    let max_read := (count - bytes_read)%nat in
    let* '(r, bs) := sys_read fd max_read in
    let result := splice result bytes_read bs in
    if r =? 0 then ret (Some (r, bytes_read, result))
    else
      let* e := get_errno in
      if (r =? -1) && negb (errno_eqb e EINTR) then ret (Some (r, bytes_read, result))
      else if 0 <? r then
        let bytes_read := (bytes_read + Z.to_nat r)%nat in
        if (bytes_read =? count)%nat then ret (Some (r, bytes_read, result))
        else read_file_part_loop fuel' fd count bytes_read result
      else read_file_part_loop fuel' fd count bytes_read result
  end.

(** [pos] is passed to [lseek] as an [off_t]; the model takes it as its
    value, which is what the C++ conversion gives for [pos < 2^63], a bound
    every position inside a file satisfies. *)
Definition read_file_part (path : string) (pos count : nat) : M (expected (list byte)) :=
  if (count =? 0)%nat then ret (Ok [])
  else
    let* fd := sys_open path O_RDONLY in
    if fd =? -1 then errno_error
    else
      let* seek_ok := (if (pos =? 0)%nat then ret true
                       else let* r := sys_lseek fd (Z.of_nat pos) SEEK_SET in
                            ret (r =? Z.of_nat pos)) in
      if negb seek_ok then
        let* e := get_errno in let* _ := fd_close fd in ret (Err (strerror e))
      else
        let* w := (fun w => (w, w)) in
        let* loop := read_file_part_loop (fd_fuel fd w) fd count 0 (resize count []) in
        match loop with
        | None => let* _ := fd_close fd in ret (Err fuel_exhausted)
        | Some (r, bytes_read, result) =>
          if r =? -1 then
            let* e := get_errno in let* _ := fd_close fd in ret (Err (strerror e))
          else
            let* _ := fd_close fd in ret (Ok (resize bytes_read result))
        end.

(** ** [util::write_file] (the [nonstd::span<const uint8_t>] overload) *)

Inductive InPlace := InPlace_no | InPlace_yes.

Definition write_file (path : string) (data : list byte) (in_place : InPlace)
  : M (expected unit) :=
  let* _ := (match in_place with InPlace_no => sys_unlink path | InPlace_yes => ret 0 end) in
  let* fd := sys_open path O_WRONLY_CREAT_TRUNC in
  if fd =? -1 then errno_error
  else
    let* r := write_fd fd data (length data) in
    let* _ := fd_close fd in
    ret r.

(** ** [util::write_file] (the [std::string_view] overload) *)

(** The bytes [data.data()] points to, [data.size()] of them. *)
Definition string_bytes (s : string) : list byte :=
  map Ascii.byte_of_ascii (String.list_ascii_of_string s).

(** [O_TEXT] is 0 on POSIX, so the flags are those of the binary overload. *)
Definition write_file_sv (path : string) (data : string) (in_place : InPlace)
  : M (expected unit) :=
  let* _ := (match in_place with InPlace_no => sys_unlink path | InPlace_yes => ret 0 end) in
  let* fd := sys_open path O_WRONLY_CREAT_TRUNC in
  if fd =? -1 then errno_error
  else
    let* r := write_fd fd (string_bytes data) (length (string_bytes data)) in
    let* _ := fd_close fd in
    ret r.

(** ** [util::create_cachedir_tag] *)

Definition LF : string := String (Ascii.ascii_of_nat 10) EmptyString.
Definition TAB : string := String (Ascii.ascii_of_nat 9) EmptyString.

Definition cachedir_tag : string :=
  "Signature: 8a477f597d28d172789f06886806bc55" +:+ LF +:+
  "# This file is a cache directory tag created by ccache." +:+ LF +:+
  "# For information about cache directory tags, see:" +:+ LF +:+
  "#" +:+ TAB +:+ "http://www.brynosaurus.com/cachedir/" +:+ LF.

(** [FMT("{}/CACHEDIR.TAG", dir)]. *)
Definition cachedir_tag_path (dir : string) : string := dir +:+ "/CACHEDIR.TAG".

(** The call [util::write_file(path, cachedir_tag)] takes the default
    [in_place] argument declared in file.hpp, which is not under src/; it is
    a parameter here.  The [LOG] of a failed write has no effect on the
    world. *)
Definition create_cachedir_tag (in_place_default : InPlace) (dir : string) : M unit :=
  let path := cachedir_tag_path dir in
  let* stat := sys_stat path in
  match stat with
  | Some _ => ret tt
  | None =>
    let* result := write_file_sv path cachedir_tag in_place_default in
    match result with
    | Ok _ => ret tt
    | Err _ => ret tt
    end
  end.

(** ** String helpers of [util/string.hpp] *)

(** A [std::string_view] is the list of its characters. *)
Definition NUL : ascii := Ascii.zero.

Definition ends_with (string suffix : list ascii) : bool :=
  (length suffix <=? length string)%nat
  && bool_decide (skipn (length string - length suffix) string = suffix).

(** [starts_with(std::string_view, std::string_view)]:
    [string.substr(0, prefix.size()) == prefix]. *)
Definition starts_with_sv (string prefix : list ascii) : bool :=
  bool_decide (firstn (length prefix) string = prefix).

(** [std::strncmp]: compares at most [n] characters as unsigned char and
    stops after a NUL common to both.  [a] and [b] are the memory the
    pointers designate. *)
Fixpoint strncmp (a b : list ascii) (n : nat) {struct n} : Z :=
  match n with
  | O => 0
  | S n' =>
    match a, b with
    | c1 :: a', c2 :: b' =>
      if Ascii.eqb c1 c2 then
        (if Ascii.eqb c1 NUL then 0 else strncmp a' b' n')
      else Z.of_nat (nat_of_ascii c1) - Z.of_nat (nat_of_ascii c2)
    | _, _ => 0
    end
  end.

(** [starts_with(const char*, std::string_view)]: the C string [string]
    (its characters, followed in memory by its terminating NUL). *)
Definition starts_with_cstr (string prefix : list ascii) : bool :=
  strncmp (string ++ [NUL]) prefix (length prefix) =? 0.

(** ** [util::join] *)

Section join.
Context {T : Type} (to_string : T -> string).

(** The loop [for (auto it = begin; it != end; ++it)], the iterator [it]
    being the position in the sequence ([begin] is position 0). *)
Fixpoint join_loop (delimiter : string) (it : nat) (rest : list T) (result : string)
  : string :=
  match rest with
  | [] => result
  | x :: rest' =>
    let result := if negb (it =? 0)%nat then result +:+ delimiter else result in
    join_loop delimiter (S it) rest' (result +:+ to_string x)
  end.

(** [join(begin, end, delimiter)] over the elements from [begin] to [end]. *)
Definition join_iter (elements : list T) (delimiter : string) : string :=
  join_loop delimiter 0 elements "".

(** [join(container, delimiter)]. *)
Definition join (container : list T) (delimiter : string) : string :=
  join_iter container delimiter.
End join.

(** * Specification-side definitions *)

(** Claim C10 as stated: on every NUL-terminated C string the
    [const char*] overload agrees with the [std::string_view] one. *)
Definition starts_with_overloads_agree : Prop :=
  forall s p : list ascii, NUL ∉ s -> starts_with_cstr s p = starts_with_sv s p.

(** A scheduled outcome that [write_fd] retries or accepts: anything but a
    failure with an error other than [EINTR]/[EAGAIN]. *)
Definition benign (o : outcome) : Prop :=
  match o with Fail e => transient e = true | _ => True end.

(** A scheduled outcome that is not a failure. *)
Definition nofail (o : outcome) : Prop :=
  match o with Fail _ => False | _ => True end.

(** A world with one file ["f"] and a schedule of transient failures and
    partial writes. *)
Definition roundtrip_world : world :=
  mk_world {[ "f"%string := 0%nat ]} {[ 0%nat := [Byte.x09] ]} ∅ 1 3 EIO
    [Nominal; Nominal; Partial 1; Fail EAGAIN; Nominal; Nominal; Fail EINTR; Nominal] [].

(** A scheduled outcome that [read_file_part]'s loop survives: a read
    interrupted by [EINTR] or a call that does not fail. *)
Definition eintr_or_nofail (o : outcome) : Prop :=
  match o with Fail e => e = EINTR | _ => True end.

(** A ten-byte file ["g"] whose reads are once interrupted. *)
Definition ten_bytes : list byte :=
  [Byte.x00; Byte.x01; Byte.x02; Byte.x03; Byte.x04; Byte.x05; Byte.x06; Byte.x07;
   Byte.x08; Byte.x09].

Definition part_world : world :=
  mk_world {[ "g"%string := 0%nat ]} {[ 0%nat := ten_bytes ]} ∅ 1 3 EIO
    [Nominal; Fail EINTR; Nominal] [].







(** A world with a descriptor 3 at offset 0 of a 100-byte file. *)
Definition fallocate_world : world :=
  mk_world {[ "f"%string := 0%nat ]} {[ 0%nat := repeat Byte.x00 100 ]}
    {[ 3 := (0%nat, 0%nat) ]} 1 4 EIO [] [].

(** A world with a three-byte file ["s"]: the opens of ["s"] and of the
    temporary file, the first read and the write succeed, the next read
    fails with [EIO]. *)
Definition copy_world : world :=
  mk_world {[ "s"%string := 0%nat ]} {[ 0%nat := [Byte.x01; Byte.x02; Byte.x03] ]} ∅ 1 3 EIO
    [Nominal; Nominal; Nominal; Nominal; Fail EIO] [].

(** ** Frame conditions *)

(** [m] relates every world to the world it leaves. *)
Definition keeps (R : world -> world -> Prop) {A} (m : M A) : Prop :=
  forall w, R w (snd (m w)).

(** No descriptor is allocated, and the descriptor table changes at most
    at the descriptors [fds]. *)
Definition fds_frame (fds : list Z) (w w' : world) : Prop :=
  w_next_fd w' = w_next_fd w /\ forall k, k ∉ fds -> w_fds w' !! k = w_fds w !! k.

(** [m] leaves the descriptor [fd] closed. *)
Definition closes (fd : Z) {A} (m : M A) : Prop :=
  forall w, w_fds (snd (m w)) !! fd = None.

(** When [fd] is open on [ino], it stays open on [ino], the directory does
    not change and no other inode is written. *)
Definition ino_frame (fd : Z) (ino : nat) (w w' : world) : Prop :=
  (exists off, w_fds w !! fd = Some (ino, off)) ->
  w_paths w' = w_paths w /\ (exists off, w_fds w' !! fd = Some (ino, off)) /\
  forall i, i <> ino -> w_inodes w' !! i = w_inodes w !! i.

(** Descriptors are allocated from [w_next_fd] upwards, which is not
    negative. *)
Definition fd_wf (w : world) : Prop :=
  0 <= w_next_fd w /\ forall k, w_next_fd w <= k -> w_fds w !! k = None.

(** Inodes are allocated from [w_next_ino] upwards. *)
Definition ino_wf (w : world) : Prop :=
  forall p i, w_paths w !! p = Some i -> (i < w_next_ino w)%nat.

(** The name [TemporaryFile] gives to the file it creates for [prefix]. *)
Definition tmp_name (prefix : string) (n : nat) : string :=
  String.append prefix (String.append ".tmp." (pretty n)).

(** The directory does not change. *)
Definition paths_same (w w' : world) : Prop := w_paths w' = w_paths w.

(** A world with a three-byte file ["s"] in which nothing fails. *)
Definition file_world : world :=
  mk_world {[ "s"%string := 0%nat ]} {[ 0%nat := [Byte.x01; Byte.x02; Byte.x03] ]} ∅ 1 3 EIO [] [].

(** A world with a two-byte file ["f"] open as descriptor 3. *)
Definition open_world : world :=
  mk_world {[ "f"%string := 0%nat ]} {[ 0%nat := [Byte.x01; Byte.x02] ]}
    {[ 3 := (0%nat, 0%nat) ]} 1 4 EIO [] [].

(** A world with two names ["s"] and ["t"] for one file. *)
Definition link_world : world :=
  mk_world {[ "s"%string := 0%nat; "t"%string := 0%nat ]} {[ 0%nat := [Byte.x01] ]} ∅ 1 3 EIO [] [].

(** The same two links, in a directory the process may not write: the
    unlink of ["s"] fails with [EACCES]. *)
Definition locked_link_world : world :=
  mk_world {[ "s"%string := 0%nat; "t"%string := 0%nat ]} {[ 0%nat := [Byte.x01] ]} ∅ 1 3 EIO
    [Fail EACCES] [].

(** A world holding an empty ["cache/CACHEDIR.TAG"]. *)
Definition tag_world : world :=
  mk_world {[ "cache/CACHEDIR.TAG"%string := 0%nat ]} {[ 0%nat := [] ]} ∅ 1 3 EIO [] [].

(** * Proofs *)

(** ** Helper lemmas on lists of characters *)

Lemma nat_of_ascii_neq (a b : ascii) :
  a <> b -> Z.of_nat (nat_of_ascii a) - Z.of_nat (nat_of_ascii b) <> 0.
Proof.
  intros Hab Hz. apply Hab.
  rewrite <- (ascii_nat_embedding a), <- (ascii_nat_embedding b). f_equal. lia.
Qed.

Lemma strncmp_cstr_prefix (s p : list ascii) :
  NUL ∉ s -> NUL ∉ p ->
  (strncmp (s ++ [NUL]) p (length p) =? 0) = bool_decide (firstn (length p) s = p).
Proof.
  revert s. induction p as [|c p IH]; intros s Hs Hp; cbn [strncmp app firstn length].
  - done.
  - apply not_elem_of_cons in Hp as [HcN Hp].
    destruct s as [|c1 s]; cbn [strncmp app firstn length].
    + rewrite bool_decide_eq_false_2 by congruence.
      destruct (Ascii.eqb_spec NUL c) as [Heq|Hne]; [by exfalso; apply HcN|].
      apply Z.eqb_neq, nat_of_ascii_neq; congruence.
    + apply not_elem_of_cons in Hs as [Hc1N Hs].
      destruct (Ascii.eqb_spec c1 c) as [->|Hne].
      * destruct (Ascii.eqb_spec c NUL) as [->|_]; [congruence|].
        rewrite IH by done. apply bool_decide_ext. split; [by intros ->|congruence].
      * rewrite bool_decide_eq_false_2 by congruence.
        apply Z.eqb_neq, nat_of_ascii_neq; congruence.
Qed.

(** ** Claim C9: [ends_with] *)

(** C9: [ends_with(s, t)] is true if and only if [t] is no longer than [s]
    and [s] ends with [t], i.e. the last [|t|] characters of [s] are [t]. *)
Theorem ends_with_iff_suffix (s t : list ascii) :
  ends_with s t = true <->
  (length t <= length s)%nat /\ exists u, s = u ++ t /\ length u = (length s - length t)%nat.
Proof.
  unfold ends_with. rewrite andb_true_iff, Nat.leb_le, bool_decide_eq_true.
  split.
  - intros [Hle Hsuf]. split; [done|].
    exists (firstn (length s - length t) s). split.
    + rewrite <- Hsuf at 2. symmetry. apply firstn_skipn.
    + rewrite length_firstn. lia.
  - intros [Hle [u [-> Hu]]]. split; [done|].
    rewrite length_app in Hu |- *.
    replace (length u + length t - length t)%nat with (length u) by lia.
    apply drop_app_length.
Qed.

(** ** Claim C10: the two [starts_with] overloads *)

(** C10 (code bug): with the prefix ["a\0b"] (a [std::string_view] may
    hold a NUL), [strncmp] stops at the NUL and the C-string overload, meant
    as an optimized [starts_with(string_view, string_view)], accepts ["a"],
    while the [string_view] overload rejects it. *)
Lemma starts_with_overloads_disagree_on_NUL :
  starts_with_cstr ["a"%char] ["a"%char; NUL; "b"%char] = true /\
  starts_with_sv ["a"%char] ["a"%char; NUL; "b"%char] = false /\
  ~ starts_with_overloads_agree.
Proof.
  split; [reflexivity|]. split; [reflexivity|].
  intros H. specialize (H ["a"%char] ["a"%char; NUL; "b"%char]).
  assert (Hs : NUL ∉ ["a"%char]) by (rewrite not_elem_of_cons; split; [done|apply not_elem_of_nil]).
  specialize (H Hs). vm_compute in H. discriminate.
Qed.

(** Extra X18: for every NUL-terminated C string [s] and every prefix [p]
    that contains no NUL character, the [strncmp]-based overload returns the
    same result as the [string_view] overload. *)
Theorem starts_with_cstr_agrees (s p : list ascii) :
  NUL ∉ s -> NUL ∉ p -> starts_with_cstr s p = starts_with_sv s p.
Proof. intros Hs Hp. apply strncmp_cstr_prefix; done. Qed.

Lemma starts_with_cstr_agrees_witness :
  ((NUL ∉ ["a"%char; "b"%char]) /\ (NUL ∉ ["a"%char])) /\
  starts_with_cstr ["a"%char; "b"%char] ["a"%char] = starts_with_sv ["a"%char; "b"%char] ["a"%char].
Proof.
  assert (H1 : NUL ∉ ["a"%char; "b"%char]) by (rewrite !not_elem_of_cons; repeat split; [done|done|apply not_elem_of_nil]).
  assert (H2 : NUL ∉ ["a"%char]) by (rewrite !not_elem_of_cons; split; [done|apply not_elem_of_nil]).
  split; [split; assumption|].
  apply (starts_with_cstr_agrees ["a"%char; "b"%char] ["a"%char] H1 H2).
Defined.

(** ** Claim C8: [read_file_part] with [count == 0] *)

(** C8: [read_file_part(path, pos, 0)] succeeds with an empty result and
    leaves the world untouched: no system call (no open, no seek) is made. *)
Theorem read_file_part_count_zero (path : string) (pos : nat) (w : world) :
  read_file_part path pos 0 w = (Ok [], w).
Proof. reflexivity. Qed.

(** ** Claim C5: [util::rename] *)

(** C5 (counterexample): on POSIX, renaming ["s"] onto ["t"], two links to
    the same file, succeeds and does nothing: ["s"] still exists, so
    "after renaming A onto an existing B, A no longer exists" fails for
    hard links.  *)
Lemma rename_hard_links_keeps_source :
  let (r, w') := rename false "s" "t" link_world in
  r = Ok tt /\ w_paths w' !! "s"%string = Some 0%nat /\ file_at w' "t" = Some [Byte.x01].
Proof. vm_compute. split; [reflexivity|split; reflexivity]. Qed.

(** C5 (amended): renaming a file [a] onto an existing path [b] that names
    another file (not a link to [a]'s file) overwrites it, on POSIX
    ([::rename]) and on Windows ([MoveFileExA] with
    [MOVEFILE_REPLACE_EXISTING]): on success [b] holds [a]'s former content
    and [a] is gone; the existence of [b] never makes the call fail, it fails
    exactly when the operating system reports an error, and then returns
    that error's text. *)
Theorem rename_overwrites_existing (win32 : bool) (a b : string) (c : list byte)
  (w : world) :
  file_at w a = Some c -> is_Some (w_paths w !! b) -> w_paths w !! b <> w_paths w !! a ->
  let (r, w') := rename win32 a b w in
  match r with
  | Ok _ => file_at w' b = Some c /\ w_paths w' !! a = None
  | Err m => exists e, head (w_sched w) = Some (Fail e) /\
                       m = (if win32 then win32_error_message e else strerror e)
  end /\ (r = Ok tt <-> forall e, head (w_sched w) <> Some (Fail e)).
Proof.
  intros Ha [inob Hb] Hdiff. unfold file_at in Ha.
  destruct (w_paths w !! a) as [inoa|] eqn:Hpa; [|discriminate].
  assert (Hab : a <> b) by (intros ->; congruence).
  assert (Hneq : String.eqb a b = false) by (apply String.eqb_neq; exact Hab).
  assert (Hbd : bool_decide (w_paths w !! b = Some inoa) = false)
    by (apply bool_decide_eq_false_2; exact Hdiff).
  destruct win32; unfold rename, MoveFileExA, sys_rename, bind, ret, get_errno, pop, fail_with, errno_error;
    cbn; destruct (w_sched w) as [|o os]; cbn; [|destruct o; cbn| |destruct o; cbn];
    rewrite ?Hpa, ?Hneq, ?Hbd; cbn.
  all: try (split; [split; [unfold file_at; cbn; by rewrite lookup_insert_eq
                           |cbn; rewrite lookup_insert_ne by congruence; by rewrite lookup_delete_eq]
                   |split; [intros _ e; discriminate|done]]).
  all: split; [eexists; split; reflexivity|split; [discriminate|intros H; exfalso; eapply H; reflexivity]].
Qed.

Lemma rename_overwrites_existing_witness :
  let w := mk_world (<["a" := 0%nat]> (<["b" := 1%nat]> ∅))
                    (<[0%nat := [Byte.x01]]> (<[1%nat := [Byte.x02]]> ∅)) ∅ 2 3 EIO [] [] in
  (file_at w "a" = Some [Byte.x01] /\ is_Some (w_paths w !! "b"%string) /\
   w_paths w !! "b"%string <> w_paths w !! "a"%string) /\
  (let (r, w') := rename false "a" "b" w in
   match r with
   | Ok _ => file_at w' "b" = Some [Byte.x01] /\ w_paths w' !! "a"%string = None
   | Err m => exists e, head (w_sched w) = Some (Fail e) /\
                        m = (if false then win32_error_message e else strerror e)
   end /\ (r = Ok tt <-> forall e, head (w_sched w) <> Some (Fail e))).
Proof.
  intros w.
  assert (H1 : file_at w "a" = Some [Byte.x01]) by reflexivity.
  assert (H2 : is_Some (w_paths w !! "b"%string)) by (eexists; reflexivity).
  assert (H3 : w_paths w !! "b"%string <> w_paths w !! "a"%string) by (vm_compute; congruence).
  split; [split; [exact H1|split; [exact H2|exact H3]]|].
  exact (rename_overwrites_existing false "a" "b" [Byte.x01] w H1 H2 H3).
Defined.

(** ** Helper lemmas on buffers and file contents *)

Lemma length_write_at (d : list byte) (off : nat) (bs : list byte) :
  length (write_at d off bs) = Nat.max (length d) (off + length bs).
Proof.
  unfold write_at. rewrite !length_app, length_take, length_drop, !length_app, repeat_length.
  lia.
Qed.

Lemma write_at_app (d : list byte) (off : nat) (x y : list byte) :
  write_at (write_at d off x) (off + length x) y = write_at d off (x ++ y).
Proof.
  assert (Hlen := length_write_at d off x).
  unfold write_at in *; cbv zeta in *. set (D := d ++ repeat Byte.x00 (off - length d)) in *.
  assert (HD : (off <= length D)%nat) by (subst D; rewrite length_app, repeat_length; lia).
  replace (off + length x - length (take off D ++ x ++ drop (off + length x) D))%nat
    with 0%nat by lia.
  rewrite app_nil_r, (app_assoc (take off D) x).
  assert (HT : length (take off D ++ x) = (off + length x)%nat)
    by (rewrite length_app, length_take; lia).
  rewrite take_app_length' by lia.
  rewrite drop_app_ge by lia. rewrite drop_drop, HT, length_app, <- !app_assoc.
  do 4 f_equal. lia.
Qed.

Lemma write_at_nil_0 (bs : list byte) : write_at [] 0 bs = bs.
Proof. unfold write_at. simpl. by rewrite skipn_nil, app_nil_r. Qed.

(** ** [write_fd] *)

Ltac wsimpl := cbn [w_fds w_inodes w_paths w_sched w_log w_errno w_next_ino w_next_fd
                    add_log set_fds set_inodes set_sched set_errno set_paths
                    set_next_ino set_next_fd] in *.

(** One iteration of the [write_fd] loop that wrote the chunk [ch] of the
    remaining data, after the outcomes [pre] were taken from the schedule. *)
Ltac write_ok_case IH Hs Hcd ch written data pre :=
  rewrite (proj2 (Z.eqb_neq _ _)) by lia; rewrite Nat2Z.id;
  let Hx := fresh "Hx" in
  let Hp := fresh "Hp" in let cons := fresh "cons" in
  let Hsch := fresh "Hsch" in let Hres := fresh "Hres" in
  let r := fresh "r" in let w'' := fresh "w''" in
  let u := fresh "u" in let m := fresh "m" in let e := fresh "e" in
  let pre' := fresh "pre'" in let Hb := fresh "Hb" in let Hf := fresh "Hf" in
  let Hi := fresh "Hi" in let Ht := fresh "Ht" in let Hfull := fresh "Hfull" in
  match goal with |- context[write_fd_loop ?fuel ?fd ?data (length ?data) ?wr ?w1] =>
    pose proof (IH wr w1) as Hx; destruct (write_fd_loop fuel fd data (length data) wr w1) as [r w''] end;
  wsimpl;
  destruct Hx as [Hp [cons [Hsch Hres]]];
    [by rewrite lookup_insert_eq, Nat.add_assoc
    |lia
    |rewrite ?Hs; destruct (Nat.ltb_spec (written + length ch) (length data)); simpl in *; lia
    |];
  split; [done|]; exists (pre ++ cons);
  split; [rewrite ?Hs in Hsch; simpl; rewrite <- Hsch; reflexivity|];
  destruct r as [u|m];
  [ destruct Hres as (Hb & Hf & Hi);
    split; [rewrite Forall_app; split; [repeat (apply List.Forall_cons; [exact I|]); apply List.Forall_nil|done]|];
    split; [by rewrite Hf, insert_insert_eq|];
    rewrite Hi; destruct (Nat.ltb_spec (written + length ch) (length data));
    [ first [ lia
            | rewrite lookup_insert_eq; cbn [default from_option id];
              rewrite Nat.add_assoc, write_at_app, Hcd, insert_insert_eq; done ]
    | assert (Hfull : ch = drop written data)
        by (rewrite <- Hcd, drop_ge by lia; symmetry; apply app_nil_r);
      by rewrite Hfull ]
  | destruct Hres as (e & pre' & -> & Hb & Ht & ->);
    exists e, (pre ++ pre'); split; [|split; [|split; [assumption|reflexivity]]];
    [by rewrite <- app_assoc|rewrite Forall_app; split; [repeat (apply List.Forall_cons; [exact I|]); apply List.Forall_nil|done]] ].

Lemma write_fd_loop_spec (fuel : nat) (fd : Z) (data : list byte) (written : nat)
  (w : world) (ino off : nat) :
  w_fds w !! fd = Some (ino, (off + written)%nat) ->
  (written <= length data)%nat ->
  (length (w_sched w) + (if (written <? length data)%nat then 1 else 0) < fuel)%nat ->
  let (r, w') := write_fd_loop fuel fd data (length data) written w in
  w_paths w' = w_paths w /\
  exists consumed, w_sched w = consumed ++ w_sched w' /\
  match r with
  | Ok _ =>
    Forall benign consumed /\
    w_fds w' = <[fd := (ino, (off + length data)%nat)]> (w_fds w) /\
    w_inodes w' = (if (written <? length data)%nat
                   then <[ino := write_at (default [] (w_inodes w !! ino)) (off + written)
                                   (skipn written data)]> (w_inodes w)
                   else w_inodes w)
  | Err m =>
    exists e pre, consumed = pre ++ [Fail e] /\ Forall benign pre /\
                  transient e = false /\ m = strerror e
  end.
Proof.
  revert written w. induction fuel as [|fuel IH]; intros written w Hfd Hle Hfuel; [lia|].
  cbn [write_fd_loop].
  destruct (written <? length data)%nat eqn:Hlt.
  2:{ apply Nat.ltb_ge in Hlt. assert (written = length data) as -> by lia.
      cbn. split; [done|]. exists []. split; [done|].
      split; [constructor|]. split; [|done]. by rewrite insert_id. }
  apply Nat.ltb_lt in Hlt.
  unfold bind at 1, sys_write. cbn. rewrite Hfd. unfold pop. cbn.
  destruct (w_sched w) as [|o os] eqn:Hs; [|destruct o as [|e|k]]; wsimpl.
  - set (ch := take (length data - written) (drop written data)) in *.
    assert (Hcd : ch ++ drop (written + length ch) data = drop written data).
    { subst ch. rewrite take_ge by (rewrite length_drop; lia).
      rewrite length_drop, (drop_ge data (written + (length data - written))) by lia.
      apply app_nil_r. }
    assert (Hclen : (written + length ch = length data)%nat)
      by (subst ch; rewrite length_take, length_drop; lia).
    write_ok_case IH Hs Hcd ch written data (@nil outcome).
  - set (ch := take (length data - written) (drop written data)) in *.
    assert (Hcd : ch ++ drop (written + length ch) data = drop written data).
    { subst ch. rewrite take_ge by (rewrite length_drop; lia).
      rewrite length_drop, (drop_ge data (written + (length data - written))) by lia.
      apply app_nil_r. }
    assert (Hclen : (written + length ch = length data)%nat)
      by (subst ch; rewrite length_take, length_drop; lia).
    write_ok_case IH Hs Hcd ch written data [Nominal].
  - unfold fail_with; cbn. unfold bind, get_errno, ret. wsimpl.
    destruct (transient e) eqn:Ht; cbn [negb].
    + match goal with |- context[write_fd_loop ?fuel ?fd ?data (length ?data) ?wr ?w1] =>
        pose proof (IH wr w1) as Hx; destruct (write_fd_loop fuel fd data (length data) wr w1) as [r w''] end.
      wsimpl.
      destruct Hx as [Hp [cons [Hsch Hres]]];
        [done|lia|rewrite (proj2 (Nat.ltb_lt _ _) Hlt); simpl in *; lia|].
      split; [done|]. exists (Fail e :: cons). split; [by rewrite Hsch|].
      destruct r as [u|m].
      * destruct Hres as (Hb & Hf & Hi). split; [by constructor|]. split; [done|].
        by rewrite Hi, (proj2 (Nat.ltb_lt _ _) Hlt).
      * destruct Hres as (e' & pre & -> & Hb & Ht' & ->).
        exists e', (Fail e :: pre). split; [done|]. split; [by constructor|]. done.
    + split; [done|]. exists [Fail e]. split; [done|].
      exists e, []. split; [done|]. split; [by constructor|]. done.
  - set (ch := take k (take (length data - written) (drop written data))) in *.
    assert (Hcd : ch ++ drop (written + length ch) data = drop written data).
    { assert (Hc : length ch = Nat.min k (length data - written))
        by (subst ch; rewrite !length_take, length_drop; lia).
      rewrite Hc, <- drop_drop. subst ch. rewrite take_take. apply take_drop. }
    assert (Hclen : (written + length ch <= length data)%nat)
      by (subst ch; rewrite !length_take, length_drop; lia).
    write_ok_case IH Hs Hcd ch written data [Partial k].
Qed.

(** Claim C7: [write_fd(fd, data, size)] on an open descriptor writes all
    [size] bytes at the descriptor's offset, across partial writes and
    transient [EINTR]/[EAGAIN] failures, which are retried and never
    surface; it returns an error, the text of the [errno], exactly when a
    write fails with an error other than [EINTR]/[EAGAIN], and that error
    is the first such failure. *)
Theorem write_fd_writes_all (fd : Z) (data : list byte) (w : world) (ino off : nat) :
  w_fds w !! fd = Some (ino, off) ->
  let (r, w') := write_fd fd data (length data) w in
  w_paths w' = w_paths w /\
  exists consumed, w_sched w = consumed ++ w_sched w' /\
  match r with
  | Ok _ =>
    Forall benign consumed /\
    w_fds w' = <[fd := (ino, (off + length data)%nat)]> (w_fds w) /\
    w_inodes w' = (if (0 <? length data)%nat
                   then <[ino := write_at (default [] (w_inodes w !! ino)) off data]> (w_inodes w)
                   else w_inodes w)
  | Err m =>
    exists e pre, consumed = pre ++ [Fail e] /\ Forall benign pre /\
                  transient e = false /\ m = strerror e
  end.
Proof.
  intros Hfd. unfold write_fd.
  pose proof (write_fd_loop_spec (S (S (length (w_sched w)))) fd data 0 w ino off) as H.
  rewrite Nat.add_0_r in H. specialize (H Hfd ltac:(lia)).
  destruct (0 <? length data)%nat; (cbn [skipn] in H; apply H; lia).
Qed.

Lemma write_fd_writes_all_witness :
  let w := mk_world ∅ {[0%nat := [Byte.x07]]} {[3 := (0%nat, 0%nat)]} 1 4 EIO
             [Fail EINTR; Partial 1; Fail EAGAIN; Nominal] [] in
  w_fds w !! 3 = Some (0%nat, 0%nat) /\
  let (r, w') := write_fd 3 [Byte.x01; Byte.x02] (length [Byte.x01; Byte.x02]) w in
  w_paths w' = w_paths w /\
  exists consumed, w_sched w = consumed ++ w_sched w' /\
  match r with
  | Ok _ =>
    Forall benign consumed /\
    w_fds w' = <[3 := (0%nat, (0 + length [Byte.x01; Byte.x02])%nat)]> (w_fds w) /\
    w_inodes w' = (if (0 <? length [Byte.x01; Byte.x02])%nat
                   then <[0%nat := write_at (default [] (w_inodes w !! 0%nat)) 0
                                    [Byte.x01; Byte.x02]]> (w_inodes w)
                   else w_inodes w)
  | Err m =>
    exists e pre, consumed = pre ++ [Fail e] /\ Forall benign pre /\
                  transient e = false /\ m = strerror e
  end.
Proof.
  intros w. split; [reflexivity|].
  apply (write_fd_writes_all 3 [Byte.x01; Byte.x02] w 0 0). reflexivity.
Defined.

(** ** System calls on an open regular file *)

Lemma sys_read_cases (fd : Z) (n : nat) (w : world) (ino off : nat) (d : list byte) :
  w_fds w !! fd = Some (ino, off) -> w_inodes w !! ino = Some d ->
  let (res, w') := sys_read fd n w in
  w_inodes w' = w_inodes w /\ w_paths w' = w_paths w /\
  w_log w' = w_log w ++ [Ev_read fd n] /\
  ((exists e, res = (-1, []) /\ w_errno w' = e /\ w_fds w' = w_fds w /\
              w_sched w = Fail e :: w_sched w') \/
   (res = (Z.of_nat (length (take n (drop off d))), take n (drop off d)) /\
    w_fds w' = <[fd := (ino, (off + length (take n (drop off d)))%nat)]> (w_fds w) /\
    w_errno w' = w_errno w /\
    (w_sched w = [] /\ w_sched w' = [] \/
     exists o, nofail o /\ w_sched w = o :: w_sched w'))).
Proof.
  intros Hfd Hino. unfold sys_read. cbn. rewrite Hfd. unfold pop. cbn.
  destruct (w_sched w) as [|o os] eqn:Hs; [|destruct o as [|e|k]]; cbn; rewrite ?Hino; cbn.
  - repeat split; try done. right. repeat split; try done. left. done.
  - repeat split; try done. right. repeat split; try done. right. by exists Nominal.
  - repeat split; try done. left. by exists e.
  - repeat split; try done. right. repeat split; try done. right. by exists (Partial k).
Qed.

Lemma sys_open_rdonly_cases (p : string) (w : world) (ino : nat) :
  w_paths w !! p = Some ino ->
  let (fd, w') := sys_open p O_RDONLY w in
  w_inodes w' = w_inodes w /\ w_paths w' = w_paths w /\
  w_log w' = w_log w ++ [Ev_open p] /\
  ((fd = -1 /\ exists e, w_errno w' = e /\ w_sched w = Fail e :: w_sched w') \/
   (fd = w_next_fd w /\ w_fds w' = <[fd := (ino, 0%nat)]> (w_fds w) /\ w_errno w' = w_errno w /\
    (w_sched w = [] /\ w_sched w' = [] \/
     exists o, nofail o /\ w_sched w = o :: w_sched w'))).
Proof.
  intros Hp. unfold sys_open. unfold pop. cbn.
  destruct (w_sched w) as [|o os] eqn:Hs; [|destruct o as [|e|k]]; cbn; rewrite ?Hp; cbn.
  - repeat split; try done. right. repeat split; try done. by left.
  - repeat split; try done. right. repeat split; try done. right. by exists Nominal.
  - repeat split; try done. left. split; [done|]. by exists e.
  - repeat split; try done. right. repeat split; try done. right. by exists (Partial k).
Qed.

Lemma sys_open_creat_trunc_cases (p : string) (w : world) :
  let (fd, w') := sys_open p O_WRONLY_CREAT_TRUNC w in
  fd = -1 \/
  exists ino, w_paths w' !! p = Some ino /\ w_inodes w' !! ino = Some [] /\
              w_fds w' !! fd = Some (ino, 0%nat).
Proof.
  unfold sys_open, pop, new_fd. cbn.
  destruct (w_sched w) as [|o os]; [|destruct o as [|e|k]]; cbn.
  all: try by left.
  all: destruct (w_paths w !! p) as [ino|] eqn:Hp; cbn.
  all: right; eexists; split; [rewrite ?Hp, ?lookup_insert_eq; reflexivity|]; by rewrite !lookup_insert_eq.
Qed.

(** ** Helper lemmas on [read_file]'s buffer *)

Lemma length_splice (buf : list byte) (pos : nat) (bs : list byte) :
  (pos + length bs <= length buf)%nat -> length (splice buf pos bs) = length buf.
Proof.
  intros H. unfold splice. rewrite !length_app, length_take, length_drop. lia.
Qed.

Lemma take_splice (buf : list byte) (pos : nat) (bs : list byte) :
  (pos <= length buf)%nat -> take (pos + length bs) (splice buf pos bs) = take pos buf ++ bs.
Proof.
  intros H. unfold splice.
  rewrite (take_app_add' _ _ pos (length bs)) by (rewrite length_take; lia).
  by rewrite take_app_length.
Qed.

Lemma splice_nil (buf : list byte) (pos : nat) : splice buf pos [] = buf.
Proof. unfold splice. cbn. rewrite Nat.add_0_r. apply take_drop. Qed.

Lemma take_resize (k n : nat) (l : list byte) :
  (k <= length l)%nat -> (k <= n)%nat -> take k (resize n l) = take k l.
Proof.
  intros H1 H2. unfold resize. rewrite take_app_le by (rewrite length_take; lia).
  rewrite take_take. f_equal. lia.
Qed.

Lemma resize_le (k : nat) (l : list byte) :
  (k <= length l)%nat -> resize k l = take k l.
Proof.
  intros H. unfold resize. replace (k - length l)%nat with 0%nat by lia. apply app_nil_r.
Qed.

Lemma length_resize (n : nat) (l : list byte) : length (resize n l) = n.
Proof. unfold resize. rewrite length_app, length_take, repeat_length. lia. Qed.

(** ** [read_file] returns the file's contents *)

Lemma read_file_loop_correct (fuel : nat) (fd : Z) (pos : nat) (result : list byte)
  (w : world) (ino : nat) (d : list byte) :
  w_fds w !! fd = Some (ino, pos) -> w_inodes w !! ino = Some d ->
  (pos <= length d)%nat -> (pos <= length result)%nat -> (0 < length result)%nat ->
  take pos result = take pos d ->
  match fst (read_file_loop fuel fd pos result w) with
  | Some (r, pos', res) => r <> -1 -> resize pos' res = d
  | None => True
  end.
Proof.
  revert pos result w.
  induction fuel as [|fuel IH]; intros pos result w Hfd Hino Hpd Hpr H0r Htk; [done|].
  cbn [read_file_loop].
  set (result1 := if (pos =? length result)%nat then resize (2 * length result) result else result).
  assert (H1 : (pos < length result1)%nat /\ take pos result1 = take pos d).
  { subst result1. destruct (Nat.eqb_spec pos (length result)).
    - rewrite length_resize. split; [lia|]. rewrite take_resize by lia. done.
    - split; [lia|done]. }
  destruct H1 as [Hlt1 Htk1]. clearbody result1.
  set (max_read := (length result1 - pos)%nat).
  unfold bind at 1.
  pose proof (sys_read_cases fd max_read w ino pos d Hfd Hino) as Hr.
  destruct (sys_read fd max_read w) as [[r bs] w1].
  destruct Hr as (Hi & Hp & Hl & [(e & Heq & He & Hf & Hs) | (Heq & Hf & He & Hs)]);
    injection Heq as -> ->.
  - rewrite splice_nil. cbn [Z.eqb]. unfold bind, get_errno, ret. rewrite He.
    destruct (errno_eqb e EINTR); cbn [negb andb Z.ltb Z.compare].
    + cbn. apply IH; first [by rewrite Hf | by rewrite Hi | lia | done].
    + cbn. done.
  - set (bs := take max_read (drop pos d)) in *.
    assert (Hbs : length bs = Nat.min max_read (length d - pos))
      by (subst bs; rewrite length_take, length_drop; lia).
    destruct (Z.eqb_spec (Z.of_nat (length bs)) 0) as [Hz|Hz].
    + cbn. intros _.
      assert (Hpe : pos = length d) by lia.
      assert (Hb0 : bs = []) by (destruct bs; [done|cbn in Hz; lia]).
      rewrite Hb0, splice_nil, resize_le, Htk1 by lia. rewrite Hpe. apply take_ge. lia.
    + unfold bind, get_errno, ret. cbn [fst].
      rewrite (proj2 (Z.eqb_neq (Z.of_nat (length bs)) (-1))) by lia.
      cbn [andb]. rewrite (proj2 (Z.ltb_lt 0 _)) by lia. rewrite Nat2Z.id.
      assert (Hsl : length (splice result1 pos bs) = length result1)
        by (apply length_splice; lia).
      assert (Htks : take (pos + length bs) (splice result1 pos bs) = take pos d ++ bs)
        by (rewrite take_splice by lia; by rewrite Htk1).
      destruct (Nat.ltb_spec (length bs) max_read) as [Hshort|Hfull].
      * cbn. intros _.
        assert (Hall : bs = drop pos d)
          by (subst bs; apply take_ge; rewrite length_drop; lia).
        rewrite resize_le by lia. rewrite Htks, Hall. apply take_drop.
      * apply IH.
        -- by rewrite Hf, lookup_insert_eq.
        -- by rewrite Hi.
        -- lia.
        -- lia.
        -- lia.
        -- rewrite Htks, <- take_take_drop. f_equal. subst bs. f_equal. lia.
Qed.

Lemma read_file_buffer_size_max (h : nat) :
  Z.of_nat h < SIZE_MAX -> read_file_buffer_size h = Nat.max 1024 (S h).
Proof.
  unfold read_file_buffer_size, SIZE_MAX. intros Hh.
  destruct (Nat.ltb_spec h 1024); [lia|].
  rewrite Z.mod_small by lia. lia.
Qed.

Lemma read_file_correct (path : string) (h : nat) (w : world) (d : list byte) :
  file_at w path = Some d ->
  Z.of_nat (if (h =? 0)%nat then length d else h) < SIZE_MAX ->
  match fst (read_file path h w) with Ok r => r = d | Err _ => True end.
Proof.
  intros Hd Hmax. unfold file_at in Hd.
  destruct (w_paths w !! path) as [ino|] eqn:Hp; [|done].
  unfold read_file, bind at 1.
  assert (Hh : exists w1, (if (h =? 0)%nat then
                              bind (sys_stat path) (fun st =>
                              match st with Some size => ret (Ok size) | None => errno_error end)
                            else ret (Ok h)) w =
                           (Ok (if (h =? 0)%nat then length d else h), w1) /\
                           w_paths w1 = w_paths w /\ w_inodes w1 = w_inodes w).
  { destruct (h =? 0)%nat.
    - unfold bind, sys_stat, file_at. cbn. rewrite Hp, Hd. cbn. by eexists _.
    - by eexists _. }
  destruct Hh as (w1 & -> & Hp1 & Hi1).
  set (e := if (h =? 0)%nat then length d else h) in *.
  unfold bind at 1.
  rewrite <- Hp1 in Hp. rewrite <- Hi1 in Hd.
  pose proof (sys_open_rdonly_cases path w1 ino Hp) as Ho.
  destruct (sys_open path O_RDONLY w1) as [fd w2].
  destruct Ho as (Hi2 & Hp2 & Hl2 & [[-> _] | (_ & Hf2 & He2 & Hs2)]); [done|].
  destruct (Z.eqb_spec fd (-1)) as [->|Hfd]; [done|].
  unfold bind at 1 2.
  pose proof (read_file_loop_correct (fd_fuel fd w2) fd 0
                (resize (read_file_buffer_size e) []) w2 ino d) as Hl.
  destruct (read_file_loop (fd_fuel fd w2) fd 0 (resize (read_file_buffer_size e) []) w2)
    as [[[[r pos] res]|] w3]; cbn [fst] in Hl.
  2:{ unfold fd_close, bind. destruct (sys_close fd w3). done. }
  destruct (Z.eqb_spec r (-1)) as [->|Hr].
  { unfold fd_close, bind, get_errno. destruct (sys_close fd w3). done. }
  unfold fd_close, bind. destruct (sys_close fd w3). cbn.
  apply Hl; try done.
  - by rewrite Hf2, lookup_insert_eq.
  - by rewrite Hi2.
  - lia.
  - lia.
  - rewrite length_resize, read_file_buffer_size_max by exact Hmax. lia.
Qed.

(** ** [write_file] stores the data *)

Lemma write_file_contents (path : string) (d : list byte) (in_place : InPlace) (w : world) :
  match write_file path d in_place w with
  | (Ok _, w1) => file_at w1 path = Some d
  | (Err _, _) => True
  end.
Proof.
  unfold write_file, bind at 1.
  destruct ((match in_place with InPlace_no => sys_unlink path | InPlace_yes => ret 0 end) w)
    as [u w0].
  unfold bind at 1.
  pose proof (sys_open_creat_trunc_cases path w0) as Ho.
  destruct (sys_open path O_WRONLY_CREAT_TRUNC w0) as [fd w1].
  destruct (Z.eqb_spec fd (-1)) as [->|Hfd].
  { unfold errno_error, bind. done. }
  destruct Ho as [->|(ino & Hp & Hi & Hf)]; [done|].
  unfold bind at 1, write_fd.
  pose proof (write_fd_loop_spec (S (S (length (w_sched w1)))) fd d 0 w1 ino 0 Hf
                ltac:(lia) ltac:(destruct (0 <? length d)%nat; lia)) as Hw.
  destruct (write_fd_loop (S (S (length (w_sched w1)))) fd d (length d) 0 w1) as [r w2].
  destruct Hw as (Hp2 & consumed & _ & Hr).
  cbv [bind fd_close sys_close ret fail_with]. wsimpl.
  destruct r as [u'|m]; destruct (w_fds w2 !! fd); cbn; try done;
    (destruct Hr as (_ & _ & Hi2); unfold file_at; wsimpl; rewrite Hp2, Hp, Hi2, Hi;
     destruct (0 <? length d)%nat eqn:Hl;
     [rewrite lookup_insert_eq; cbn [default from_option id]; by rewrite write_at_nil_0
     |apply Nat.ltb_ge in Hl; destruct d; [done|cbn in Hl; lia]]).
Qed.

(** ** Claim C1: [write_file] then [read_file] *)

(** Claim C1: writing [d] to [path] with the binary [write_file] overload and
    then reading [path] back with [read_file] gives exactly [d], whatever the
    transient failures along the way, whenever both calls succeed, for the
    default size hint 0 and every size hint whose expected size ([size_hint],
    or the length of [d] when it is 0) is below [SIZE_MAX]: at [SIZE_MAX] the
    [size_t] sum [size_hint + 1] wraps to 0. *)
Theorem write_file_read_file_roundtrip (path : string) (d : list byte) (in_place : InPlace)
  (size_hint : nat) (w w1 w2 : world) (u : unit) (r : list byte) :
  Z.of_nat (if (size_hint =? 0)%nat then length d else size_hint) < SIZE_MAX ->
  write_file path d in_place w = (Ok u, w1) ->
  read_file path size_hint w1 = (Ok r, w2) ->
  r = d.
Proof.
  intros Hmax Hw Hr.
  pose proof (write_file_contents path d in_place w) as Hc. rewrite Hw in Hc.
  pose proof (read_file_correct path size_hint w1 d Hc Hmax) as Hd. by rewrite Hr in Hd.
Qed.

Lemma write_file_read_file_roundtrip_witness :
  let d := [Byte.x01; Byte.x02; Byte.x03] in
  let w1 := snd (write_file "f" d InPlace_no roundtrip_world) in
  let w2 := snd (read_file "f" 0 w1) in
  (Z.of_nat (if (0 =? 0)%nat then length d else 0%nat) < SIZE_MAX /\
   write_file "f" d InPlace_no roundtrip_world = (Ok tt, w1) /\
   read_file "f" 0 w1 = (Ok d, w2)) /\ d = d.
Proof.
  intros d w1 w2.
  assert (H0 : Z.of_nat (if (0 =? 0)%nat then length d else 0%nat) < SIZE_MAX)
    by (vm_compute; reflexivity).
  assert (H1 : write_file "f" d InPlace_no roundtrip_world = (Ok tt, w1)) by (vm_compute; reflexivity).
  assert (H2 : read_file "f" 0 w1 = (Ok d, w2)) by (vm_compute; reflexivity).
  split; [split; [assumption|split; assumption]|].
  exact (write_file_read_file_roundtrip "f" d InPlace_no 0 roundtrip_world w1 w2 tt d H0 H1 H2).
Defined.

(** ** Claim C6: [read_file_part] *)

Lemma take_length_take (n : nat) (l : list byte) : take (length (take n l)) l = take n l.
Proof.
  rewrite length_take. destruct (Nat.le_ge_cases n (length l)).
  - by rewrite Nat.min_l.
  - rewrite Nat.min_r by lia. rewrite !take_ge by lia. done.
Qed.

Lemma read_file_part_loop_correct (fuel : nat) (fd : Z) (count br : nat) (result : list byte)
  (w : world) (ino pos : nat) (d : list byte) :
  w_fds w !! fd = Some (ino, (pos + br)%nat) -> w_inodes w !! ino = Some d ->
  (pos + br <= length d)%nat -> (br < count)%nat -> length result = count ->
  take br result = take br (drop pos d) ->
  Forall eintr_or_nofail (w_sched w) ->
  (length (w_sched w) + (if (pos + br =? length d)%nat then 1 else 2) <= fuel)%nat ->
  exists r br' res,
    fst (read_file_part_loop fuel fd count br result w) = Some (r, br', res) /\
    r <> -1 /\ resize br' res = take count (drop pos d).
Proof.
  revert br result w.
  induction fuel as [|fuel IH]; intros br result w Hfd Hino Hpd Hbc Hlr Htk Hsch Hfuel.
  { destruct (pos + br =? length d)%nat; lia. }
  cbn [read_file_part_loop].
  set (max_read := (count - br)%nat).
  unfold bind at 1.
  pose proof (sys_read_cases fd max_read w ino (pos + br) d Hfd Hino) as Hr.
  destruct (sys_read fd max_read w) as [[r bs] w1].
  destruct Hr as (Hi & Hp & Hl & [(e & Heq & He & Hf & Hs) | (Heq & Hf & He & Hs)]);
    injection Heq as -> ->.
  - rewrite Hs in Hsch. apply Forall_cons in Hsch as [He' Hsch]. cbn in He'. subst e.
    rewrite splice_nil. cbn [Z.eqb]. unfold bind, get_errno, ret. rewrite He. cbn.
    apply IH; try done; [by rewrite Hf|by rewrite Hi|].
    rewrite Hs in Hfuel. cbn in Hfuel. lia.
  - set (bs := take max_read (drop (pos + br) d)) in *.
    assert (Hbs : length bs = Nat.min max_read (length d - (pos + br)))
      by (subst bs; rewrite length_take, length_drop; lia).
    assert (Hsl : length (splice result br bs) = length result)
      by (apply length_splice; lia).
    assert (Htks : take (br + length bs) (splice result br bs) = take (br + length bs) (drop pos d)).
    { rewrite take_splice by lia. rewrite Htk, <- take_take_drop, drop_drop. f_equal.
      subst bs. symmetry. apply take_length_take. }
    destruct (Z.eqb_spec (Z.of_nat (length bs)) 0) as [Hz|Hz].
    + cbn. eexists _, _, _. split; [reflexivity|]. split; [lia|].
      assert (Hb0 : bs = []) by (destruct bs; [done|cbn in Hz; lia]).
      rewrite Hb0, splice_nil, resize_le, Htk by lia.
      assert (Hpe : (pos + br = length d)%nat) by lia.
      rewrite !take_ge; [done| |]; rewrite length_drop; lia.
    + unfold bind, get_errno, ret. cbn [fst].
      rewrite (proj2 (Z.eqb_neq (Z.of_nat (length bs)) (-1))) by lia.
      cbn [andb]. rewrite (proj2 (Z.ltb_lt 0 _)) by lia. rewrite Nat2Z.id.
      destruct (Nat.eqb_spec (br + length bs) count) as [Hc|Hc].
      * cbn. eexists _, _, _. split; [reflexivity|]. split; [lia|].
        rewrite resize_le by lia. by rewrite Htks, Hc.
      * apply IH.
        -- by rewrite Hf, lookup_insert_eq, Nat.add_assoc.
        -- by rewrite Hi.
        -- lia.
        -- lia.
        -- lia.
        -- exact Htks.
        -- destruct Hs as [[_ ->]|(o & _ & Hs)]; [done|]. rewrite Hs in Hsch.
           by apply Forall_cons in Hsch as [_ ?].
        -- assert (Hend : (pos + (br + length bs) =? length d)%nat = true)
             by (apply Nat.eqb_eq; lia).
           rewrite Hend.
           destruct Hs as [[Hs0 ->]|(o & _ & Hs)].
           ++ rewrite Hs0 in Hfuel. cbn in Hfuel |- *.
              destruct (pos + br =? length d)%nat eqn:Hpb; [apply Nat.eqb_eq in Hpb; lia|lia].
           ++ rewrite Hs in Hfuel. cbn in Hfuel.
              destruct (pos + br =? length d)%nat eqn:Hpb; [apply Nat.eqb_eq in Hpb; lia|lia].
Qed.

(** Claim C6: on a file of length [L] holding [d], for [pos <= L] and
    [count > 0], [read_file_part(path, pos, count)] succeeds with the
    [min(count, L - pos)] bytes of [d] at positions [pos], [pos + 1], ...,
    when opening the file succeeds and the only failures are reads
    interrupted by [EINTR]; a [count] beyond the end of the file gives the
    bytes up to the end. *)
Theorem read_file_part_reads_range (path : string) (pos count : nat) (w : world)
  (d : list byte) :
  file_at w path = Some d -> (pos <= length d)%nat -> (0 < count)%nat ->
  0 <= w_next_fd w ->
  (match w_sched w with Fail _ :: _ => False | _ => True end) ->
  Forall eintr_or_nofail (w_sched w) ->
  exists r, fst (read_file_part path pos count w) = Ok r /\
    r = take count (drop pos d) /\
    length r = Nat.min count (length d - pos) /\
    forall i, (i < length r)%nat -> r !! i = d !! (pos + i)%nat.
Proof.
  intros Hd Hpos Hcount Hnfd Hhead Hsch.
  unfold file_at in Hd. destruct (w_paths w !! path) as [ino|] eqn:Hp; [|done].
  exists (take count (drop pos d)).
  split; [|split; [done|split]].
  2:{ rewrite length_take, length_drop. lia. }
  2:{ intros i Hi. rewrite length_take in Hi.
      rewrite lookup_take_lt by lia. by rewrite lookup_drop. }
  unfold read_file_part.
  rewrite (proj2 (Nat.eqb_neq count 0)) by lia.
  unfold bind at 1.
  pose proof (sys_open_rdonly_cases path w ino Hp) as Ho.
  destruct (sys_open path O_RDONLY w) as [fd w2].
  destruct Ho as (Hi2 & Hp2 & Hl2 & [[-> (e & _ & Hs)] | (Hfd & Hf2 & He2 & Hs2)]).
  { by rewrite Hs in Hhead. }
  rewrite (proj2 (Z.eqb_neq fd (-1))) by lia.
  assert (Hsch2 : Forall eintr_or_nofail (w_sched w2)).
  { destruct Hs2 as [[_ ->]|(o & _ & Hs)]; [done|]. rewrite Hs in Hsch.
    by apply Forall_cons in Hsch as [_ ?]. }
  assert (Hseek : exists w3,
    (if (pos =? 0)%nat then ret true
     else bind (sys_lseek fd (Z.of_nat pos) SEEK_SET) (fun r => ret (r =? Z.of_nat pos))) w2
    = (true, w3) /\ w_fds w3 !! fd = Some (ino, pos) /\ w_inodes w3 = w_inodes w2 /\
      w_sched w3 = w_sched w2).
  { destruct (Nat.eqb_spec pos 0) as [->|Hp0].
    - exists w2. split; [done|]. by rewrite Hf2, lookup_insert_eq.
    - unfold bind, sys_lseek, ret. cbn. rewrite Hf2, lookup_insert_eq. cbn.
      rewrite (proj2 (Z.ltb_ge _ _)) by lia. rewrite Z.eqb_refl.
      eexists. split; [reflexivity|]. cbn. rewrite lookup_insert_eq.
      split; [do 2 f_equal; lia|done]. }
  destruct Hseek as (w3 & Hseek & Hf3 & Hi3 & Hs3).
  unfold bind at 1. rewrite Hseek. cbn [negb].
  unfold bind at 1 2.
  assert (Hino : w_inodes w3 !! ino = Some d) by (by rewrite Hi3, Hi2).
  pose proof (read_file_part_loop_correct (fd_fuel fd w3) fd count 0 (resize count []) w3
                ino pos d ltac:(by rewrite Nat.add_0_r) Hino ltac:(lia) ltac:(lia)
                (length_resize count []) eq_refl ltac:(by rewrite Hs3)) as Hl.
  destruct Hl as (r & br & res & Hloop & Hr & Hres).
  { unfold fd_fuel. rewrite Hf3, Hino. cbn [default from_option id].
    rewrite Nat.add_0_r. destruct (Nat.eqb_spec pos (length d)); lia. }
  destruct (read_file_part_loop (fd_fuel fd w3) fd count 0 (resize count []) w3) as [l w4].
  cbn [fst] in Hloop. subst l.
  rewrite (proj2 (Z.eqb_neq r (-1))) by done.
  unfold fd_close, bind. destruct (sys_close fd w4). cbn. by rewrite Hres.
Qed.

Lemma read_file_part_reads_range_witness :
  (file_at part_world "g" = Some ten_bytes /\ (5 <= length ten_bytes)%nat /\ (0 < 3)%nat /\
   0 <= w_next_fd part_world /\
   (match w_sched part_world with Fail _ :: _ => False | _ => True end) /\
   Forall eintr_or_nofail (w_sched part_world)) /\
  exists r, fst (read_file_part "g" 5 3 part_world) = Ok r /\
    r = take 3 (drop 5 ten_bytes) /\
    length r = Nat.min 3 (length ten_bytes - 5) /\
    forall i, (i < length r)%nat -> r !! i = ten_bytes !! (5 + i)%nat.
Proof.
  split.
  { split; [reflexivity|]. split; [cbn; lia|]. split; [lia|]. split; [cbn; lia|].
    split; [exact I|]. repeat constructor. }
  apply (read_file_part_reads_range "g" 5 3 part_world ten_bytes);
    [reflexivity|cbn; lia|lia|cbn; lia|exact I|repeat constructor].
Defined.

(** ** Claim C4: [read_file]'s buffer *)












(** ** Claim C3: [util::fallocate] *)

(** Claim C3: [fallocate(fd, new_size)] built without [posix_fallocate]
    (or whose [posix_fallocate] reports [EINVAL]), on a file already
    [new_size] bytes long or longer, succeeds without changing the file but
    leaves the descriptor's position at the end of the file, whatever it was
    before: [saved_pos] is taken with [lseek(fd, 0, SEEK_END)]. *)
Theorem fallocate_leaves_position_at_end (fd : Z) (new_size : nat) (w : world)
  (ino off : nat) (data : list byte) :
  w_fds w !! fd = Some (ino, off) -> w_inodes w !! ino = Some data ->
  (new_size <= length data)%nat ->
  let (r, w') := fallocate false fd new_size w in
  r = Ok tt /\ w_fds w' !! fd = Some (ino, length data) /\ w_inodes w' = w_inodes w.
Proof.
  intros Hfd Hino Hle.
  unfold fallocate, bind, ret, sys_lseek. cbn. rewrite Hfd. cbn. rewrite Hino. cbn.
  rewrite (proj2 (Z.ltb_ge _ _)) by lia. cbn.
  rewrite lookup_insert_eq. cbn. rewrite Hino. cbn.
  rewrite (proj2 (Z.ltb_ge _ _)) by lia. cbn.
  rewrite !Z.add_0_r, ?Z.add_0_l. rewrite (proj2 (Z.eqb_neq _ (-1))) by lia. rewrite Nat2Z.id.
  rewrite (proj2 (Nat.leb_le _ _) Hle). cbn.
  rewrite lookup_insert_eq. cbn.
  rewrite (proj2 (Z.ltb_ge _ _)) by lia. cbn.
  by rewrite !lookup_insert_eq.
Qed.

Lemma fallocate_leaves_position_at_end_witness :
  (w_fds fallocate_world !! 3 = Some (0%nat, 0%nat) /\
   w_inodes fallocate_world !! 0%nat = Some (repeat Byte.x00 100) /\
   (50 <= length (repeat Byte.x00 100))%nat) /\
  let (r, w') := fallocate false 3 50 fallocate_world in
  r = Ok tt /\ w_fds w' !! 3 = Some (0%nat, length (repeat Byte.x00 100)) /\
  w_inodes w' = w_inodes fallocate_world.
Proof.
  split.
  { split; [reflexivity|]. split; [reflexivity|]. cbn. lia. }
  apply (fallocate_leaves_position_at_end 3 50 fallocate_world 0 0 (repeat Byte.x00 100));
    [reflexivity|reflexivity|cbn; lia].
Defined.

(** ** Claim C2: [util::copy_file] through a temporary file *)

(** Claim C2: [copy_file(src, dest, ViaTmpFile::yes)] whose source read
    fails after the first block was copied returns the read error and leaves
    [dest] absent, but the temporary file [dest.tmp.N] is left behind with
    the bytes copied so far: [copy_file] moves the descriptor out of the
    [TemporaryFile] handle and nothing unlinks [tmp_file] on that path. *)
Theorem copy_file_read_failure_leaves_tmp_file (win32 : bool) :
  let (r, w') := copy_file win32 "s" "d" ViaTmpFile_yes copy_world in
  r = Err (strerror EIO) /\ w_paths w' !! "d"%string = None /\
  file_at w' "d.tmp.1" = Some [Byte.x01; Byte.x02; Byte.x03].
Proof. destruct win32; vm_compute; (split; [|split]); reflexivity. Qed.

(** * Further properties of the code *)

(** ** Frame conditions of the system calls and loops *)

Section keeps.
Context (R : world -> world -> Prop) `{!PreOrder R}.

Lemma keeps_ret {A} (a : A) : keeps R (ret a).
Proof. intros w. cbn. reflexivity. Qed.

Lemma keeps_bind {A B} (m : M A) (k : A -> M B) :
  keeps R m -> (forall a, keeps R (k a)) -> keeps R (bind m k).
Proof.
  intros Hm Hk w. unfold bind. specialize (Hm w).
  destruct (m w) as [a w1] eqn:E. cbn in Hm. etrans; [exact Hm|]. apply Hk.
Qed.

Lemma keeps_get_errno : keeps R get_errno.
Proof. intros w. cbn. reflexivity. Qed.

Lemma keeps_self : keeps R (fun w => (w, w)).
Proof. intros w. cbn. reflexivity. Qed.

Lemma keeps_errno_error {A} : keeps R (@errno_error A).
Proof. apply keeps_bind; [apply keeps_get_errno|intros; apply keeps_ret]. Qed.

End keeps.

Ltac keeps_auto :=
  repeat match goal with
  | |- keeps _ (bind _ _) =>
    first [apply keeps_bind; [|intros ?] | apply keeps_bind; [first [assumption|typeclasses eauto]| |intros ?]]
  | |- keeps _ (ret _) => apply keeps_ret; try first [assumption|typeclasses eauto]
  | |- keeps _ get_errno => apply keeps_get_errno; try first [assumption|typeclasses eauto]
  | |- keeps _ (fun w => (w, w)) => apply keeps_self; try first [assumption|typeclasses eauto]
  | |- keeps _ errno_error => apply keeps_errno_error; try first [assumption|typeclasses eauto]
  | |- keeps _ (if ?b then _ else _) => destruct b
  | |- keeps _ (match ?x with _ => _ end) => destruct x
  end; try typeclasses eauto.

Global Instance fds_frame_preorder (fds : list Z) : PreOrder (fds_frame fds).
Proof.
  split.
  - intros w. split; [done|]. intros k _. reflexivity.
  - intros w1 w2 w3 [Hn12 H12] [Hn23 H23]. split; [congruence|].
    intros k Hk. rewrite H23, H12; done.
Qed.

Global Instance ino_frame_preorder (fd : Z) (ino : nat) : PreOrder (ino_frame fd ino).
Proof.
  split.
  - intros w H. split; [done|]. split; [done|]. done.
  - intros w1 w2 w3 H12 H23 H1.
    destruct (H12 H1) as (Hp2 & H2 & Hi2). destruct (H23 H2) as (Hp3 & H3 & Hi3).
    split; [congruence|]. split; [done|]. intros i Hi. rewrite Hi3, Hi2; done.
Qed.

Lemma sys_read_fds_frame fd n : keeps (fds_frame [fd]) (sys_read fd n).
Proof.
  intros w. unfold sys_read. cbn. destruct (w_fds w !! fd) as [[ino off]|] eqn:Hfd;
    [|split; [done|intros k Hk; done]].
  unfold pop. cbn. destruct (w_sched w) as [|[] os]; cbn;
    (split; [done|]); intros j Hj; apply not_elem_of_cons in Hj as [Hj1 _]; wsimpl; try done;
    rewrite lookup_insert_ne by congruence; done.
Qed.
Lemma sys_read_ino_frame fd ino n : keeps (ino_frame fd ino) (sys_read fd n).
Proof.
  intros w [off Hfd]. unfold sys_read. cbn. rewrite Hfd.
  unfold pop. cbn. destruct (w_sched w) as [|[] os]; cbn;
    (split; [done|]; split; [rewrite ?lookup_insert_eq; eauto|done]).
Qed.

Lemma sys_write_fds_frame fd bs : keeps (fds_frame [fd]) (sys_write fd bs).
Proof.
  intros w. unfold sys_write. cbn. destruct (w_fds w !! fd) as [[ino off]|] eqn:Hfd;
    [|split; [done|intros k Hk; done]].
  unfold pop. cbn. destruct (w_sched w) as [|[] os]; cbn;
    (split; [done|]); intros j Hj; apply not_elem_of_cons in Hj as [Hj1 _]; wsimpl; try done;
    rewrite lookup_insert_ne by congruence; done.
Qed.

Lemma sys_write_ino_frame fd ino bs : keeps (ino_frame fd ino) (sys_write fd bs).
Proof.
  intros w [off Hfd]. unfold sys_write. cbn. rewrite Hfd.
  unfold pop. cbn. destruct (w_sched w) as [|[] os]; cbn;
    (split; [done|]; split; [rewrite ?lookup_insert_eq; eauto|]);
    try done; intros i Hi; by rewrite lookup_insert_ne by congruence.
Qed.

Lemma write_fd_loop_keeps R `{!PreOrder R} fd data size :
  (forall bs, keeps R (sys_write fd bs)) ->
  forall fuel written, keeps R (write_fd_loop fuel fd data size written).
Proof.
  intros Hw fuel. induction fuel as [|fuel IH]; intros written; cbn [write_fd_loop];
    keeps_auto; auto.
Qed.

Lemma write_fd_keeps R `{!PreOrder R} fd data size :
  (forall bs, keeps R (sys_write fd bs)) -> keeps R (write_fd fd data size).
Proof. intros Hw w. unfold write_fd. apply (write_fd_loop_keeps R); auto. Qed.

Lemma read_file_loop_keeps R `{!PreOrder R} fd :
  (forall n, keeps R (sys_read fd n)) ->
  forall fuel pos result, keeps R (read_file_loop fuel fd pos result).
Proof.
  intros Hr fuel. induction fuel as [|fuel IH]; intros pos result; cbn [read_file_loop];
    keeps_auto; auto.
Qed.

Lemma read_file_part_loop_keeps R `{!PreOrder R} fd count :
  (forall n, keeps R (sys_read fd n)) ->
  forall fuel br result, keeps R (read_file_part_loop fuel fd count br result).
Proof.
  intros Hr fuel. induction fuel as [|fuel IH]; intros br result; cbn [read_file_part_loop];
    keeps_auto; auto.
Qed.

Lemma read_fd_keeps R `{!PreOrder R} fd (recv : DataReceiver) :
  (forall n, keeps R (sys_read fd n)) -> (forall bs, keeps R (recv bs)) ->
  keeps R (read_fd fd recv).
Proof.
  intros Hr Hv.
  assert (Hl : forall fuel, keeps R (read_fd_loop fuel fd recv)).
  { intros fuel. induction fuel as [|fuel IH]; cbn [read_fd_loop]; keeps_auto; auto. }
  assert (Hb : forall f, keeps R (let* n := read_fd_loop f fd recv in
                                  match n with
                                  | None => ret (Err fuel_exhausted)
                                  | Some n => if n =? -1 then errno_error else ret (Ok tt)
                                  end)) by (intros f; keeps_auto; apply Hl).
  intros w. exact (Hb _ w).
Qed.

Lemma sys_open_fds (p : string) (fl : oflags) (w : world) :
  let (fd, w') := sys_open p fl w in
  (fd = -1 /\ w_fds w' = w_fds w /\ w_next_fd w' = w_next_fd w) \/
  (fd = w_next_fd w /\ w_next_fd w' = fd + 1 /\
   exists ino, w_fds w' = <[fd := (ino, 0%nat)]> (w_fds w)).
Proof.
  unfold sys_open, pop, new_fd, fail_with. cbn.
  destruct (w_sched w) as [|o os]; [|destruct o as [|e|k]]; cbn; try by left.
  all: destruct (w_paths w !! p) as [ino|]; cbn;
    [destruct (o_creat fl && o_excl fl); cbn; [by left|]; destruct (o_trunc fl)
    |destruct (o_creat fl)]; cbn.
  all: first [by left | by right; eauto].
Qed.

Lemma sys_close_fds (fd : Z) (w : world) :
  w_fds (snd (sys_close fd w)) = delete fd (w_fds w) /\
  w_next_fd (snd (sys_close fd w)) = w_next_fd w.
Proof.
  unfold sys_close. cbn. destruct (w_fds w !! fd) eqn:E; cbn; [done|].
  split; [|done]. symmetry. by apply delete_id.
Qed.

Lemma fd_close_fds_frame (fd : Z) : keeps (fds_frame [fd]) (fd_close fd).
Proof.
  intros w. unfold fd_close, bind. destruct (sys_close_fds fd w) as [H1 H2].
  destruct (sys_close fd w) as [r w1]. cbn in *. split; [done|].
  intros k Hk. apply not_elem_of_cons in Hk as [Hk _]. rewrite H1.
  by rewrite lookup_delete_ne by congruence.
Qed.

Lemma closes_fd_close (fd : Z) : closes fd (fd_close fd).
Proof.
  intros w. unfold fd_close, bind. destruct (sys_close_fds fd w) as [H1 _].
  destruct (sys_close fd w) as [r w1]. cbn in *. rewrite H1. apply lookup_delete_eq.
Qed.

Lemma closes_bind_r (fd : Z) {A B} (m : M A) (k : A -> M B) :
  (forall a, closes fd (k a)) -> closes fd (bind m k).
Proof. intros Hk w. unfold bind. destruct (m w). apply Hk. Qed.

Lemma closes_bind_l (fd : Z) (S : list Z) {A B} (m : M A) (k : A -> M B) :
  closes fd m -> (forall a, keeps (fds_frame S) (k a)) -> fd ∉ S -> closes fd (bind m k).
Proof.
  intros Hm Hk HS w. unfold bind. specialize (Hm w). destruct (m w) as [a w1]. cbn in Hm.
  destruct (Hk a w1) as [_ H]. rewrite H; done.
Qed.

Lemma keeps_fds_frame_mono (S S' : list Z) {A} (m : M A) :
  S ⊆ S' -> keeps (fds_frame S) m -> keeps (fds_frame S') m.
Proof.
  intros Hs Hm w. destruct (Hm w) as [Hn H]. split; [done|]. intros k Hk. apply H. set_solver.
Qed.

Lemma sys_stat_fds_frame (p : string) : keeps (fds_frame []) (sys_stat p).
Proof.
  intros w. unfold sys_stat. cbn. destruct (file_at _ p); cbn; (split; [done|intros; done]).
Qed.

Lemma sys_unlink_fds_frame (p : string) : keeps (fds_frame []) (sys_unlink p).
Proof.
  intros w. unfold sys_unlink, pop, fail_with. cbn. destruct (w_paths w !! p); cbn;
    [destruct (w_sched w) as [|[] os]; cbn|]; (split; [done|intros; done]).
Qed.

Lemma sys_lseek_fds_frame (fd off : Z) (wh : whence) : keeps (fds_frame [fd]) (sys_lseek fd off wh).
Proof.
  intros w. unfold sys_lseek, fail_with. cbn. destruct (w_fds w !! fd) as [[ino cur]|]; cbn;
    [|split; [done|intros; done]].
  destruct (_ <? 0); cbn; (split; [done|]); intros k Hk; apply not_elem_of_cons in Hk as [Hk _];
    wsimpl; [done|]. by rewrite lookup_insert_ne by congruence.
Qed.

Lemma rename_fds_frame (win32 : bool) (a b : string) : keeps (fds_frame []) (rename win32 a b).
Proof.
  unfold rename. destruct win32; cbn [negb]; keeps_auto.
  all: try (intros w; unfold sys_rename, MoveFileExA, pop, fail_with; cbn;
            destruct (w_sched w) as [|[] os]; cbn;
            repeat match goal with |- context [match ?x with _ => _ end] => destruct x; cbn end;
            (split; [done|intros; done])).
Qed.

(** ** Descriptors are closed on every path *)

Lemma fds_frame_nil (w w' : world) :
  fds_frame [] w w' -> w_fds w' = w_fds w /\ w_next_fd w' = w_next_fd w.
Proof. intros [Hn H]. split; [|done]. apply map_eq. intros k. apply H. set_solver. Qed.

Lemma fd_wf_frame (w w' : world) : fd_wf w -> fds_frame [] w w' -> fd_wf w'.
Proof.
  intros [H0 H] Hf. apply fds_frame_nil in Hf as [Hf Hn]. split; [lia|].
  intros k Hk. rewrite Hf. apply H. lia.
Qed.

Lemma open_then_close {A} (p : string) (fl : oflags) (rest : Z -> M A) (w : world) :
  fd_wf w ->
  keeps (fds_frame []) (rest (-1)) ->
  (forall fd, fd <> -1 -> keeps (fds_frame [fd]) (rest fd) /\ closes fd (rest fd)) ->
  w_fds (snd (bind (sys_open p fl) rest w)) = w_fds w.
Proof.
  intros [H0 Hwf] Hm1 Hr. unfold bind.
  pose proof (sys_open_fds p fl w) as Ho.
  destruct (sys_open p fl w) as [fd w1].
  destruct Ho as [(-> & Hf1 & Hn1)|(Hfd & Hn1 & ino & Hf1)].
  { destruct (fds_frame_nil _ _ (Hm1 w1)) as [H _]. congruence. }
  destruct (Hr fd ltac:(lia)) as [Hk Hc].
  destruct (Hk w1) as [_ Hk1]. specialize (Hc w1).
  apply map_eq. intros k. destruct (decide (k = fd)) as [->|Hne].
  - rewrite Hc. symmetry. apply Hwf. lia.
  - rewrite Hk1 by set_solver. by rewrite Hf1, lookup_insert_ne by congruence.
Qed.

Ltac closes_auto :=
  repeat match goal with
  | |- closes _ (bind (fd_close _) _) =>
    apply (closes_bind_l _ []); [apply closes_fd_close|intros; keeps_auto|set_solver]
  | |- closes _ (bind _ _) => apply closes_bind_r; intros ?
  | |- closes _ (if ?b then _ else _) => destruct b
  | |- closes _ (match ?x with _ => _ end) => destruct x
  end.

Ltac frame_auto fd :=
  keeps_auto;
  try apply fd_close_fds_frame;
  try apply sys_lseek_fds_frame;
  try (apply (read_file_loop_keeps _ fd); intros; apply sys_read_fds_frame);
  try (apply (read_file_part_loop_keeps _ fd); intros; apply sys_read_fds_frame);
  try (apply (write_fd_keeps _ fd); intros; apply sys_write_fds_frame).

(** Extra X1: [read_file] leaves the descriptor table as it found it, whatever
    its system calls return: the descriptor it opens is closed on every path,
    success or error (descriptors from [w_next_fd] up being free). *)
Theorem read_file_closes_fd (path : string) (size_hint : nat) (w : world) :
  fd_wf w -> w_fds (snd (read_file path size_hint w)) = w_fds w.
Proof.
  intros Hwf. unfold read_file, bind at 1.
  set (hm := if (size_hint =? 0)%nat then _ else _).
  assert (Hh : keeps (fds_frame []) hm).
  { subst hm. keeps_auto; apply sys_stat_fds_frame. }
  pose proof (Hh w) as Hf1. pose proof (fd_wf_frame _ _ Hwf Hf1) as Hwf1.
  apply fds_frame_nil in Hf1 as [Hf1 _].
  destruct (hm w) as [hint w1]. cbn [snd] in *.
  destruct hint as [size|m]; [|done].
  rewrite <- Hf1. apply open_then_close; [done|rewrite Z.eqb_refl; keeps_auto|].
  intros fd Hfd. rewrite (proj2 (Z.eqb_neq fd (-1))) by done.
  split; [frame_auto fd|closes_auto].
Qed.

(** Extra X2: [read_file_part] leaves the descriptor table as it found it,
    whatever its system calls return: the descriptor it opens is closed on every
    path, including a failed [lseek]. *)
Theorem read_file_part_closes_fd (path : string) (pos count : nat) (w : world) :
  fd_wf w -> w_fds (snd (read_file_part path pos count w)) = w_fds w.
Proof.
  intros Hwf. unfold read_file_part. destruct (count =? 0)%nat; [done|].
  apply open_then_close; [done|rewrite Z.eqb_refl; keeps_auto|].
  intros fd Hfd. rewrite (proj2 (Z.eqb_neq fd (-1))) by done.
  split; [frame_auto fd|closes_auto].
Qed.

(** Extra X3: [write_file] leaves the descriptor table as it found it, whatever
    its system calls return: the descriptor it opens is closed on every path,
    including a failed write. *)
Theorem write_file_closes_fd (path : string) (data : list byte) (in_place : InPlace) (w : world) :
  fd_wf w -> w_fds (snd (write_file path data in_place w)) = w_fds w.
Proof.
  intros Hwf. unfold write_file, bind at 1.
  set (um := match in_place with InPlace_no => _ | InPlace_yes => _ end).
  assert (Hu : keeps (fds_frame []) um).
  { subst um. destruct in_place; [apply sys_unlink_fds_frame|keeps_auto]. }
  pose proof (Hu w) as Hf1. pose proof (fd_wf_frame _ _ Hwf Hf1) as Hwf1.
  apply fds_frame_nil in Hf1 as [Hf1 _].
  destruct (um w) as [u w1]. cbn [snd] in *.
  rewrite <- Hf1. apply open_then_close; [done|rewrite Z.eqb_refl; keeps_auto|].
  intros fd Hfd. rewrite (proj2 (Z.eqb_neq fd (-1))) by done.
  split; [frame_auto fd|closes_auto].
Qed.

Lemma open_then_close_gen {A} (p : string) (fl : oflags) (rest : Z -> M A) (w : world) :
  fd_wf w ->
  keeps (fds_frame []) (rest (-1)) ->
  (forall fd w1, fd <> -1 -> fd_wf w1 -> w_next_fd w1 = fd + 1 ->
     (forall k, k <> fd -> w_fds (snd (rest fd w1)) !! k = w_fds w1 !! k) /\
     w_fds (snd (rest fd w1)) !! fd = None) ->
  w_fds (snd (bind (sys_open p fl) rest w)) = w_fds w.
Proof.
  intros [H0 Hwf] Hm1 Hr. unfold bind.
  pose proof (sys_open_fds p fl w) as Ho.
  destruct (sys_open p fl w) as [fd w1] eqn:E.
  destruct Ho as [(-> & Hf1 & Hn1)|(Hfd & Hn1 & ino & Hf1)].
  { destruct (fds_frame_nil _ _ (Hm1 w1)) as [H _]. congruence. }
  assert (Hwf1 : fd_wf w1).
  { split; [lia|]. intros k Hk. rewrite Hf1, lookup_insert_ne by lia. apply Hwf. lia. }
  destruct (Hr fd w1 ltac:(lia) Hwf1 ltac:(lia)) as [Hk Hc].
  apply map_eq. intros k. destruct (decide (k = fd)) as [->|Hne].
  - rewrite Hc. symmetry. apply Hwf. lia.
  - rewrite Hk by done. by rewrite Hf1, lookup_insert_ne by congruence.
Qed.

Lemma bind_unfold {A B} (m : M A) (k : A -> M B) (w : world) :
  bind m k w = k (fst (m w)) (snd (m w)).
Proof. unfold bind. by destruct (m w). Qed.

Lemma write_fd_receiver_frame (fd : Z) (data : list byte) :
  keeps (fds_frame [fd]) (let* _ := write_fd fd data (length data) in ret tt).
Proof. keeps_auto. apply (write_fd_keeps _ fd); intros; apply sys_write_fds_frame. Qed.

(** Extra X4: [copy_file] leaves the descriptor table as it found it, whatever
    its system calls return: both the source and the destination descriptors are
    closed on every path. *)
Theorem copy_file_closes_fds (win32 : bool) (src dest : string) (via_tmp_file : ViaTmpFile)
  (w : world) :
  fd_wf w -> w_fds (snd (copy_file win32 src dest via_tmp_file w)) = w_fds w.
Proof.
  intros Hwf. unfold copy_file. apply open_then_close_gen; [done|rewrite Z.eqb_refl; keeps_auto|].
  intros sfd w1 Hs [H01 Hwf1] Hn1. rewrite (proj2 (Z.eqb_neq _ _)) by done.
  rewrite bind_unfold. pose proof (sys_unlink_fds_frame dest w1) as Hu.
  destruct (sys_unlink dest w1) as [u w2]. cbn [fst snd] in Hu |- *.
  apply fds_frame_nil in Hu as [Hf2 Hn2].
  rewrite bind_unfold.
  set (om := if ViaTmpFile_eqb via_tmp_file ViaTmpFile_yes then _ else _).
  assert (Hom : let (o, w3) := om w2 in
                (exists m, o = Err m /\ w_fds w3 = w_fds w2) \/
                (exists fd tmp ino, o = Ok (fd, tmp) /\ fd = w_next_fd w2 /\
                                    w_fds w3 = <[fd := (ino, 0%nat)]> (w_fds w2))).
  { subst om. destruct via_tmp_file; cbn [ViaTmpFile_eqb].
    - unfold bind. pose proof (sys_open_fds dest O_WRONLY_CREAT_TRUNC w2) as Ho.
      destruct (sys_open dest O_WRONLY_CREAT_TRUNC w2) as [fd w3].
      destruct Ho as [(-> & Hf3 & _)|(Hfd & _ & ino & Hf3)].
      + left. cbn. eexists. split; [reflexivity|done].
      + rewrite (proj2 (Z.eqb_neq _ _)) by lia. right. cbn. eauto 10.
    - unfold TemporaryFile, bind; cbv beta zeta.
      match goal with |- context [sys_open ?p O_RDWR_CREAT_EXCL w2] =>
        pose proof (sys_open_fds p O_RDWR_CREAT_EXCL w2) as Ho;
        destruct (sys_open p O_RDWR_CREAT_EXCL w2) as [fd w3] end.
      destruct Ho as [(-> & Hf3 & _)|(Hfd & _ & ino & Hf3)].
      + left. cbn. eexists. split; [reflexivity|done].
      + rewrite (proj2 (Z.eqb_neq _ _)) by lia. right. cbn. eauto 10. }
  destruct (om w2) as [o w3]. cbn [fst snd].
  destruct Hom as [(m & -> & Hf3)|(dfd & tmp & ino & -> & Hd & Hf3)].
  - rewrite bind_unfold. destruct (fd_close_fds_frame sfd w3) as [_ Hc1].
    pose proof (closes_fd_close sfd w3) as Hc2.
    destruct (fd_close sfd w3) as [v w4]. cbn [fst snd] in *. split.
    + intros k Hk. rewrite Hc1 by set_solver. by rewrite Hf3, Hf2.
    + exact Hc2.
  - set (rest := bind (read_fd sfd _) _).
    assert (Hk : keeps (fds_frame [sfd; dfd]) rest).
    { subst rest. keeps_auto.
      all: try (apply (keeps_fds_frame_mono [sfd]); [set_solver|apply fd_close_fds_frame]).
      all: try (apply (keeps_fds_frame_mono [dfd]); [set_solver|apply fd_close_fds_frame]).
      all: try (apply (keeps_fds_frame_mono []); [set_solver|apply rename_fds_frame]).
      apply read_fd_keeps; [apply _| |].
      - intros n. apply (keeps_fds_frame_mono [sfd]); [set_solver|apply sys_read_fds_frame].
      - intros bs. apply (keeps_fds_frame_mono [dfd]); [set_solver|apply write_fd_receiver_frame]. }
    assert (Hcs : closes sfd rest).
    { subst rest. apply closes_bind_r. intros [u'|m'].
      - apply closes_bind_r; intros ?.
        apply (closes_bind_l _ []); [apply closes_fd_close| |set_solver].
        intros; keeps_auto; apply rename_fds_frame.
      - apply closes_bind_r; intros ?.
        apply (closes_bind_l _ []); [apply closes_fd_close| |set_solver].
        intros; keeps_auto. }
    assert (Hcd : closes dfd rest).
    { subst rest. apply closes_bind_r. intros [u'|m'].
      - apply (closes_bind_l _ [sfd]); [apply closes_fd_close| |].
        + intros; keeps_auto; try apply fd_close_fds_frame.
          all: apply (keeps_fds_frame_mono []); [set_solver|apply rename_fds_frame].
        + apply not_elem_of_cons. split; [lia|set_solver].
      - apply (closes_bind_l _ [sfd]); [apply closes_fd_close| |].
        + intros; keeps_auto; apply fd_close_fds_frame.
        + apply not_elem_of_cons. split; [lia|set_solver]. }
    specialize (Hcs w3). specialize (Hcd w3). destruct (Hk w3) as [_ Hk3].
    split; [|done].
    intros k Hk0. destruct (decide (k = dfd)) as [->|Hne].
    + rewrite Hcd. symmetry. apply Hwf1. lia.
    + rewrite Hk3 by set_solver. rewrite Hf3, lookup_insert_ne by congruence. by rewrite Hf2.
Qed.

(** ** [copy_file] copies *)

Lemma write_at_take_end (d : list byte) (off k : nat) :
  (off <= length d)%nat ->
  write_at (take off d) off (take k (drop off d)) = take (off + length (take k (drop off d))) d.
Proof.
  intros H. unfold write_at. rewrite length_take, Nat.min_l by lia.
  rewrite Nat.sub_diag. cbn [repeat]. rewrite app_nil_r.
  rewrite take_take, Nat.min_id.
  rewrite (drop_ge (take off d)) by (rewrite length_take; lia). rewrite app_nil_r.
  rewrite <- take_take_drop. f_equal. rewrite take_length_take. done.
Qed.

Lemma nofail_no_fail_suffix (pre : list outcome) (e : errno_t) (rest : list outcome) :
  Forall nofail ((pre ++ [Fail e]) ++ rest) -> False.
Proof.
  intros H. rewrite <- app_assoc, Forall_app in H. destruct H as [_ H].
  apply Forall_cons in H as [[] _].
Qed.

Lemma copy_loop_correct (fuel : nat) (sfd dfd : Z) (w : world) (ino_s ino_d : nat)
  (d : list byte) (off : nat) :
  w_fds w !! sfd = Some (ino_s, off) -> w_fds w !! dfd = Some (ino_d, off) ->
  w_inodes w !! ino_s = Some d -> w_inodes w !! ino_d = Some (take off d) ->
  ino_s <> ino_d -> sfd <> dfd -> (off <= length d)%nat -> Forall nofail (w_sched w) ->
  (length d - off < fuel)%nat ->
  let (n, w') := read_fd_loop fuel sfd
                   (fun data => let* _ := write_fd dfd data (length data) in ret tt) w in
  n = Some 0 /\ w_paths w' = w_paths w /\
  w_inodes w' = <[ino_d := d]> (w_inodes w) /\
  w_fds w' = <[dfd := (ino_d, length d)]> (<[sfd := (ino_s, length d)]> (w_fds w)) /\
  Forall nofail (w_sched w').
Proof.
  revert w off. induction fuel as [|fuel IH];
    intros w off Hs Hd His Hid Hne Hfne Hoff Hsch Hfuel; [lia|].
  cbn [read_fd_loop]. rewrite bind_unfold.
  pose proof (sys_read_cases sfd CCACHE_READ_BUFFER_SIZE w ino_s off d Hs His) as Hr.
  destruct (sys_read sfd CCACHE_READ_BUFFER_SIZE w) as [[n bs] w1]. cbn [fst snd].
  destruct Hr as (Hi1 & Hp1 & _ & [(e & _ & _ & _ & Hs1) | (Heq & Hf1 & _ & Hs1)]).
  { rewrite Hs1 in Hsch. apply Forall_cons in Hsch as [[] _]. }
  injection Heq as -> ->.
  assert (Hsch1 : Forall nofail (w_sched w1)).
  { destruct Hs1 as [[_ ->]|(o & _ & Hs1)]; [done|]. rewrite Hs1 in Hsch.
    by apply Forall_cons in Hsch as [_ ?]. }
  set (bs := take CCACHE_READ_BUFFER_SIZE (drop off d)) in *.
  assert (Hbs : length bs = Nat.min CCACHE_READ_BUFFER_SIZE (length d - off))
    by (subst bs; rewrite length_take, length_drop; lia).
  assert (HB : (0 < CCACHE_READ_BUFFER_SIZE)%nat).
  { unfold CCACHE_READ_BUFFER_SIZE. apply Pos2Nat.is_pos. }
  destruct (Z.eqb_spec (Z.of_nat (length bs)) 0) as [Hz|Hz].
  - assert (Hoe : off = length d) by lia.
    cbn. split; [by rewrite Hz|]. split; [done|]. split; [|split; [|done]].
    + rewrite Hi1, insert_id; [done|]. rewrite Hid, Hoe, take_ge; done.
    + rewrite Hf1. replace (off + length bs)%nat with (length d) by lia.
      symmetry. apply insert_id. rewrite lookup_insert_ne by congruence. by rewrite Hd, Hoe.
  - rewrite bind_unfold. cbn [get_errno fst snd].
    rewrite (proj2 (Z.eqb_neq (Z.of_nat (length bs)) (-1))) by lia. cbn [andb].
    rewrite (proj2 (Z.ltb_lt 0 _)) by lia.
    rewrite bind_unfold. rewrite bind_unfold. unfold write_fd.
    assert (Hd1 : w_fds w1 !! dfd = Some (ino_d, (off + 0)%nat))
      by (rewrite Hf1, lookup_insert_ne by congruence; by rewrite Hd, Nat.add_0_r).
    pose proof (write_fd_loop_spec (S (S (length (w_sched w1)))) dfd bs 0 w1 ino_d off Hd1
                  ltac:(lia) ltac:(destruct (0 <? length bs)%nat; lia)) as Hw.
    destruct (write_fd_loop (S (S (length (w_sched w1)))) dfd bs (length bs) 0 w1)
      as [r w2]. cbn [fst snd ret].
    destruct Hw as (Hp2 & consumed & Hs2 & Hres).
    destruct r as [u|m].
    2:{ destruct Hres as (e & pre & -> & _). rewrite Hs2 in Hsch1.
        destruct (nofail_no_fail_suffix _ _ _ Hsch1). }
    destruct Hres as (_ & Hf2 & Hi2).
    rewrite (proj2 (Nat.ltb_lt 0 (length bs))) in Hi2 by lia.
    rewrite Hi1, Hid in Hi2. cbn [default from_option id] in Hi2. rewrite Nat.add_0_r, drop_0 in Hi2.
    rewrite (write_at_take_end d off CCACHE_READ_BUFFER_SIZE Hoff : write_at (take off d) off bs = take (off + length bs) d) in Hi2.
    pose proof (IH w2 (off + length bs)%nat) as Hrec.
    destruct (read_fd_loop fuel sfd _ w2) as [n' w'].
    destruct Hrec as (Hn & Hp & Hi & Hf & Hs').
    + rewrite Hf2, lookup_insert_ne by congruence. by rewrite Hf1, lookup_insert_eq.
    + by rewrite Hf2, lookup_insert_eq.
    + by rewrite Hi2, lookup_insert_ne by congruence.
    + by rewrite Hi2, lookup_insert_eq.
    + done.
    + done.
    + lia.
    + rewrite Hs2, Forall_app in Hsch1. by destruct Hsch1.
    + lia.
    + split; [done|]. split; [congruence|]. split; [|split; [|done]].
      * by rewrite Hi, Hi2, insert_insert_eq.
      * rewrite Hf, Hf2, Hf1. rewrite (insert_insert_ne _ sfd dfd) by congruence.
        by rewrite !insert_insert_eq.
Qed.

Lemma pop_nofail (w : world) :
  Forall nofail (w_sched w) ->
  (pop w = (Nominal, w) /\ w_sched w = []) \/
  exists o os, nofail o /\ w_sched w = o :: os /\ Forall nofail os /\ pop w = (o, set_sched os w).
Proof.
  intros H. unfold pop. destruct (w_sched w) as [|o os]; [by left|].
  apply Forall_cons in H as [Ho Hos]. right. eauto 10.
Qed.

Lemma sys_open_nofail_existing (p : string) (fl : oflags) (w : world) (ino : nat) :
  Forall nofail (w_sched w) -> w_paths w !! p = Some ino -> o_creat fl && o_excl fl = false ->
  let (fd, w') := sys_open p fl w in
  fd = w_next_fd w /\ w_paths w' = w_paths w /\ w_next_ino w' = w_next_ino w /\
  w_next_fd w' = fd + 1 /\ w_fds w' = <[fd := (ino, 0%nat)]> (w_fds w) /\
  w_inodes w' = (if o_trunc fl then <[ino := []]> (w_inodes w) else w_inodes w) /\
  Forall nofail (w_sched w').
Proof.
  intros Hs Hp Hx. unfold sys_open.
  destruct (pop_nofail (add_log (Ev_open p) w) Hs) as [[-> Hs0]|(o & os & Ho & Hs0 & Hos & ->)].
  - cbn. rewrite Hp, Hx. destruct (o_trunc fl); cbn; repeat split; try done; by rewrite Hs0.
  - destruct o as [|e|k]; [| contradiction |]; cbn; rewrite Hp, Hx;
      destruct (o_trunc fl); cbn; repeat split; done.
Qed.

Lemma sys_open_nofail_absent (p : string) (fl : oflags) (w : world) :
  Forall nofail (w_sched w) -> w_paths w !! p = None -> o_creat fl = true ->
  let (fd, w') := sys_open p fl w in
  fd = w_next_fd w /\ w_paths w' = <[p := w_next_ino w]> (w_paths w) /\
  w_next_ino w' = S (w_next_ino w) /\ w_next_fd w' = fd + 1 /\
  w_fds w' = <[fd := (w_next_ino w, 0%nat)]> (w_fds w) /\
  w_inodes w' = <[w_next_ino w := []]> (w_inodes w) /\
  Forall nofail (w_sched w').
Proof.
  intros Hs Hp Hc. unfold sys_open.
  destruct (pop_nofail (add_log (Ev_open p) w) Hs) as [[-> Hs0]|(o & os & Ho & Hs0 & Hos & ->)].
  - cbn. rewrite Hp, Hc. cbn. repeat split; try done; by rewrite Hs0.
  - destruct o as [|e|k]; [| contradiction |]; cbn; rewrite Hp, Hc; cbn; repeat split; done.
Qed.

Lemma nofail_head (l : list outcome) :
  Forall nofail l -> match l with Fail _ :: _ => False | _ => True end.
Proof. intros H. destruct l as [|[] l]; [done|done| |done]. by inversion H. Qed.

Lemma sys_unlink_effect (p : string) (w : world) :
  (match w_sched w with Fail _ :: _ => False | _ => True end) ->
  let w' := snd (sys_unlink p w) in
  w_paths w' = delete p (w_paths w) /\ w_inodes w' = w_inodes w /\ w_fds w' = w_fds w /\
  w_next_ino w' = w_next_ino w /\ w_next_fd w' = w_next_fd w /\
  (Forall nofail (w_sched w) -> Forall nofail (w_sched w')).
Proof.
  intros Hh. unfold sys_unlink, pop, fail_with. cbn.
  destruct (w_paths w !! p) eqn:E; cbn.
  - destruct (w_sched w) as [|[|e|k] os] eqn:Hs; cbn; try contradiction;
      repeat split; try done; intros H; first [rewrite Hs; constructor | by inversion H].
  - repeat split; try done. cbn. by rewrite delete_id.
Qed.

Lemma fd_close_effect (fd : Z) (w : world) :
  let w' := snd (fd_close fd w) in
  w_paths w' = w_paths w /\ w_inodes w' = w_inodes w /\ w_fds w' = delete fd (w_fds w) /\
  w_next_ino w' = w_next_ino w /\ w_next_fd w' = w_next_fd w /\ w_sched w' = w_sched w.
Proof.
  unfold fd_close, bind, sys_close. cbn. destruct (w_fds w !! fd) eqn:E; cbn; repeat split.
  symmetry. by apply delete_id.
Qed.

Lemma rename_nofail (win32 : bool) (a b : string) (w : world) (ino : nat) :
  Forall nofail (w_sched w) -> w_paths w !! a = Some ino -> a <> b ->
  w_paths w !! b <> Some ino ->
  let (r, w') := rename win32 a b w in
  r = Ok tt /\ w_paths w' = <[b := ino]> (delete a (w_paths w)) /\ w_inodes w' = w_inodes w.
Proof.
  intros Hs Hp Hab Hb. assert (Heqb : String.eqb a b = false) by (by apply String.eqb_neq).
  assert (Hbd : bool_decide (w_paths w !! b = Some ino) = false)
    by (by apply bool_decide_eq_false_2).
  unfold rename. destruct win32; cbn [negb]; rewrite bind_unfold.
  - unfold MoveFileExA.
    destruct (pop_nofail (add_log (Ev_rename a b) w) Hs) as [[-> _]|(o & os & Ho & _ & _ & ->)].
    + cbn. rewrite Hp, Heqb. cbn. done.
    + destruct o as [|e|k]; [| contradiction |]; cbn; rewrite Hp, Heqb; cbn; done.
  - unfold sys_rename.
    destruct (pop_nofail (add_log (Ev_rename a b) w) Hs) as [[-> _]|(o & os & Ho & _ & _ & ->)].
    + cbn. rewrite Hp, Hbd. cbn. done.
    + destruct o as [|e|k]; [| contradiction |]; cbn; rewrite Hp, Hbd; cbn; done.
Qed.

Lemma string_length_append (a b : string) :
  String.length (String.append a b) = (String.length a + String.length b)%nat.
Proof. induction a as [|c a IH]; simpl; [done|]. lia. Qed.

Lemma tmp_name_neq (prefix : string) (n : nat) : tmp_name prefix n <> prefix.
Proof.
  unfold tmp_name. intros H. apply (f_equal String.length) in H.
  rewrite !string_length_append in H. cbn in H. lia.
Qed.

Lemma copy_open_dest (dest : string) (via : ViaTmpFile) (w : world) :
  Forall nofail (w_sched w) -> 0 <= w_next_fd w ->
  w_paths w !! dest = None ->
  w_paths w !! tmp_name dest (w_next_ino w) = None ->
  let tmp := if ViaTmpFile_eqb via ViaTmpFile_yes then tmp_name dest (w_next_ino w) else ""%string in
  let p := if ViaTmpFile_eqb via ViaTmpFile_yes then tmp else dest in
  let (opened, w') :=
    (if ViaTmpFile_eqb via ViaTmpFile_yes then
       TemporaryFile dest
     else
       let* fd := sys_open dest O_WRONLY_CREAT_TRUNC in
       if fd =? -1 then
         let* e := get_errno in
         ret (Err (String.append "Failed to open " (String.append dest
                   (String.append " for writing: " (strerror e)))))
       else ret (Ok (fd, ""%string))) w in
  opened = Ok (w_next_fd w, tmp) /\
  w_paths w' = <[p := w_next_ino w]> (w_paths w) /\
  w_next_ino w' = S (w_next_ino w) /\ w_next_fd w' = w_next_fd w + 1 /\
  w_fds w' = <[w_next_fd w := (w_next_ino w, 0%nat)]> (w_fds w) /\
  w_inodes w' = <[w_next_ino w := []]> (w_inodes w) /\
  Forall nofail (w_sched w').
Proof.
  intros Hs H0 Hd Ht. destruct via; cbn [ViaTmpFile_eqb].
  - cbv zeta. rewrite bind_unfold.
    pose proof (sys_open_nofail_absent dest O_WRONLY_CREAT_TRUNC w Hs Hd eq_refl) as Ho.
    destruct (sys_open dest O_WRONLY_CREAT_TRUNC w) as [fd w1]. cbn [fst snd].
    destruct Ho as (-> & Ho). rewrite (proj2 (Z.eqb_neq _ _)) by lia. cbn. tauto.
  - cbv zeta. unfold TemporaryFile. cbv beta zeta. rewrite bind_unfold.
    pose proof (sys_open_nofail_absent (tmp_name dest (w_next_ino w)) O_RDWR_CREAT_EXCL w Hs Ht eq_refl) as Ho.
    unfold tmp_name in Ho.
    destruct (sys_open _ O_RDWR_CREAT_EXCL w) as [fd w1]. cbn [fst snd].
    destruct Ho as (-> & Ho). rewrite (proj2 (Z.eqb_neq _ _)) by lia. cbn. unfold tmp_name. tauto.
Qed.

(** Extra X5: When [src] names a file other than [dest] and no system call
    fails, [copy_file] (directly or through a temporary file) succeeds, [dest]
    then holds the bytes of [src], [src] keeps them, and no temporary file
    [dest.tmp.N] is left. *)
Theorem copy_file_copies (win32 : bool) (src dest : string) (via_tmp_file : ViaTmpFile)
  (w : world) (d : list byte) :
  file_at w src = Some d -> src <> dest -> ino_wf w -> 0 <= w_next_fd w ->
  Forall nofail (w_sched w) ->
  w_paths w !! tmp_name dest (w_next_ino w) = None ->
  let (r, w') := copy_file win32 src dest via_tmp_file w in
  r = Ok tt /\ file_at w' dest = Some d /\ file_at w' src = Some d /\
  w_paths w' !! tmp_name dest (w_next_ino w) = None.
Proof.
  intros Hsrc Hsd Hino H0 Hs Ht. unfold file_at in Hsrc.
  destruct (w_paths w !! src) as [ino_s|] eqn:Hps; [|done].
  pose proof (Hino _ _ Hps) as Hlt.
  unfold copy_file. rewrite bind_unfold.
  pose proof (sys_open_nofail_existing src O_RDONLY w ino_s Hs Hps eq_refl) as H1.
  destruct (sys_open src O_RDONLY w) as [sfd w1]. cbn [fst snd].
  destruct H1 as (-> & P1 & NI1 & NF1 & F1 & I1 & S1). cbn [o_trunc O_RDONLY] in I1.
  rewrite (proj2 (Z.eqb_neq _ _)) by lia.
  rewrite bind_unfold.
  pose proof (sys_unlink_effect dest w1 (nofail_head _ S1)) as H2.
  destruct (sys_unlink dest w1) as [u w2]. cbn [fst snd] in *.
  destruct H2 as (P2 & I2 & F2 & NI2 & NF2 & S2). specialize (S2 S1).
  rewrite bind_unfold.
  assert (Hd2 : w_paths w2 !! dest = None) by (rewrite P2; apply lookup_delete_eq).
  assert (Ht2 : w_paths w2 !! tmp_name dest (w_next_ino w2) = None).
  { rewrite P2, NI2, NI1, lookup_delete_ne, P1 by (intros Heq; symmetry in Heq; by apply tmp_name_neq in Heq). done. }
  pose proof (copy_open_dest dest via_tmp_file w2 S2 ltac:(lia) Hd2 Ht2) as H3.
  cbv zeta in H3.
  match type of H3 with match ?X with pair _ _ => _ end => destruct X as [opened w3] end.
  cbn [fst snd].
  destruct H3 as (-> & P3 & NI3 & NF3 & F3 & I3 & S3).
  rewrite NF2, NF1 in F3, NF3 |- *. rewrite NI2, NI1 in P3, I3, NI3, F3.
  (* the copy loop *)
  rewrite bind_unfold. unfold read_fd. rewrite bind_unfold.
  assert (Hne : ino_s <> w_next_ino w) by lia.
  assert (Hs3 : w_fds w3 !! w_next_fd w = Some (ino_s, 0%nat)).
  { rewrite F3, lookup_insert_ne, F2, F1, lookup_insert_eq by lia. done. }
  assert (Hd3 : w_fds w3 !! (w_next_fd w + 1) = Some (w_next_ino w, 0%nat)).
  { rewrite F3, lookup_insert_eq. done. }
  assert (Hi3 : w_inodes w3 !! ino_s = Some d).
  { rewrite I3, lookup_insert_ne, I2, I1 by done. done. }
  assert (Hid3 : w_inodes w3 !! w_next_ino w = Some (take 0 d)).
  { rewrite I3, lookup_insert_eq. done. }
  assert (Hfu : (length d - 0 < fd_fuel (w_next_fd w) w3)%nat).
  { unfold fd_fuel. rewrite Hs3, Hi3. cbn. lia. }
  pose proof (copy_loop_correct (fd_fuel (w_next_fd w) w3) (w_next_fd w) (w_next_fd w + 1) w3
                ino_s (w_next_ino w) d 0 Hs3 Hd3 Hi3 Hid3 Hne ltac:(lia) ltac:(lia) S3 Hfu) as H4.
  destruct (read_fd_loop _ _ _ w3) as [n w4]. cbn [fst snd].
  destruct H4 as (-> & P4 & I4 & F4 & S4).
  cbn [Z.eqb Pos.eqb].
  unfold ret at 1. cbn [fst snd]. rewrite NI2, NI1.
  rewrite bind_unfold. change ((ret (Ok tt) w4).2) with w4.
  pose proof (fd_close_effect (w_next_fd w + 1) w4) as H5.
  destruct (fd_close _ w4) as [[] w5]. cbn [fst snd] in *.
  destruct H5 as (P5 & I5 & _ & _ & _ & S5).
  rewrite bind_unfold.
  pose proof (fd_close_effect (w_next_fd w) w5) as H6.
  destruct (fd_close _ w5) as [[] w6]. cbn [fst snd] in *.
  destruct H6 as (P6 & I6 & _ & _ & _ & S6).
  assert (Htd : tmp_name dest (w_next_ino w) <> dest) by apply tmp_name_neq.
  assert (Hts : tmp_name dest (w_next_ino w) <> src).
  { intros Heq. rewrite Heq in Ht. congruence. }
  assert (Hino_d : w_inodes w6 !! w_next_ino w = Some d).
  { rewrite I6, I5, I4, lookup_insert_eq. done. }
  assert (Hino_s : w_inodes w6 !! ino_s = Some d).
  { rewrite I6, I5, I4, lookup_insert_ne, Hi3 by done. done. }
  destruct via_tmp_file; cbn [ViaTmpFile_eqb] in *.
  - unfold ret, file_at. rewrite P6, P5, P4, P3, P2, P1.
    rewrite lookup_insert_eq, Hino_d, lookup_insert_ne, lookup_delete_ne, Hps, Hino_s by congruence.
    rewrite lookup_insert_ne, lookup_delete_ne by congruence. done.
  - rewrite bind_unfold.
    assert (Hp6 : w_paths w6 !! tmp_name dest (w_next_ino w) = Some (w_next_ino w)).
    { rewrite P6, P5, P4, P3, lookup_insert_eq. done. }
    assert (Hdest6 : w_paths w6 !! dest <> Some (w_next_ino w)).
    { rewrite P6, P5, P4, P3, lookup_insert_ne, Hd2 by congruence. done. }
    pose proof (rename_nofail win32 _ dest w6 _ ltac:(by rewrite S6, S5) Hp6 Htd Hdest6) as H7.
    destruct (rename win32 _ dest w6) as [r7 w7]. cbn [fst snd].
    destruct H7 as (-> & P7 & I7). unfold ret, file_at.
    rewrite P7, I7, lookup_insert_eq, Hino_d, lookup_insert_ne, lookup_delete_ne by congruence.
    rewrite P6, P5, P4, P3, lookup_insert_ne, P2, lookup_delete_ne, P1, Hps, Hino_s by congruence.
    rewrite lookup_insert_ne, lookup_delete_eq by congruence. done.
Qed.

(** ** Missing files and reads past the end *)

Lemma sys_open_absent_fails (p : string) (fl : oflags) (w : world) :
  w_paths w !! p = None -> o_creat fl = false ->
  let (fd, w') := sys_open p fl w in
  fd = -1 /\ w_paths w' = w_paths w /\ w_inodes w' = w_inodes w /\ w_fds w' = w_fds w /\
  w_next_fd w' = w_next_fd w.
Proof.
  intros Hp Hc. unfold sys_open, pop. cbn.
  destruct (w_sched w) as [|[|e|j] os]; cbn; rewrite ?Hp, ?Hc; cbn; done.
Qed.

(** Extra X6: [read_file] on a path that does not exist fails with
    [strerror(errno)] ([ENOENT] from [stat] when [size_hint] is 0) and changes
    no path, file or descriptor. *)
Theorem read_file_missing (path : string) (size_hint : nat) (w : world) :
  w_paths w !! path = None ->
  let (r, w') := read_file path size_hint w in
  (exists e, r = Err (strerror e)) /\ ((size_hint = 0)%nat -> r = Err (strerror ENOENT)) /\
  w_paths w' = w_paths w /\ w_inodes w' = w_inodes w /\ w_fds w' = w_fds w.
Proof.
  intros Hp. unfold read_file. destruct (size_hint =? 0)%nat eqn:Hh.
  - unfold bind, sys_stat, file_at. cbn. rewrite Hp. cbn. split; [by exists ENOENT|done].
  - rewrite bind_unfold. cbn [ret fst snd]. rewrite bind_unfold.
    pose proof (sys_open_absent_fails path O_RDONLY w Hp eq_refl) as Ho.
    destruct (sys_open path O_RDONLY w) as [fd w1]. cbn [fst snd].
    destruct Ho as (-> & P & I & F & _). cbn. split; [eauto|]. split; [|done].
    intros ->. done.
Qed.

(** Extra X7: [copy_file] with a source that does not exist fails with ["Failed
    to open <src> for reading: <strerror>"] and changes nothing: in particular
    [dest] is not unlinked. *)
Theorem copy_file_missing_src (win32 : bool) (src dest : string) (via_tmp_file : ViaTmpFile)
  (w : world) :
  w_paths w !! src = None ->
  let (r, w') := copy_file win32 src dest via_tmp_file w in
  (exists e, r = Err (String.append "Failed to open " (String.append src
                        (String.append " for reading: " (strerror e))))) /\
  w_paths w' = w_paths w /\ w_inodes w' = w_inodes w /\ w_fds w' = w_fds w.
Proof.
  intros Hp. unfold copy_file. rewrite bind_unfold.
  pose proof (sys_open_absent_fails src O_RDONLY w Hp eq_refl) as Ho.
  destruct (sys_open src O_RDONLY w) as [fd w1]. cbn [fst snd].
  destruct Ho as (-> & P & I & F & _). cbn. eauto.
Qed.

(** Extra X8: [read_file_part] from a position at or past the end of the file
    (and below [2^63], where [pos] converts to the same [off_t]) returns an
    empty result, not an error, when no system call fails. *)
Theorem read_file_part_past_end (path : string) (pos count : nat) (w : world) (d : list byte) :
  file_at w path = Some d -> (length d <= pos)%nat -> Z.of_nat pos < 2 ^ 63 ->
  (0 < count)%nat -> 0 <= w_next_fd w -> Forall nofail (w_sched w) ->
  fst (read_file_part path pos count w) = Ok [].
Proof.
  intros Hd Hpos _ Hc H0 Hs. unfold file_at in Hd.
  destruct (w_paths w !! path) as [ino|] eqn:Hp; [|done].
  unfold read_file_part. rewrite (proj2 (Nat.eqb_neq count 0)) by lia.
  rewrite bind_unfold.
  pose proof (sys_open_nofail_existing path O_RDONLY w ino Hs Hp eq_refl) as H1.
  destruct (sys_open path O_RDONLY w) as [fd w1]. cbn [fst snd].
  destruct H1 as (-> & P1 & NI1 & NF1 & F1 & I1 & S1). cbn [o_trunc O_RDONLY] in I1.
  rewrite (proj2 (Z.eqb_neq _ _)) by lia.
  rewrite bind_unfold.
  assert (Hseek : exists w2, (if (pos =? 0)%nat then ret true
              else let* r := sys_lseek (w_next_fd w) (Z.of_nat pos) SEEK_SET in
                   ret (r =? Z.of_nat pos)) w1 = (true, w2) /\
            w_fds w2 !! w_next_fd w = Some (ino, pos) /\ w_inodes w2 = w_inodes w /\
            w_sched w2 = w_sched w1).
  { destruct (pos =? 0)%nat eqn:Hp0.
    - apply Nat.eqb_eq in Hp0. subst pos. exists w1. split; [done|].
      rewrite F1, lookup_insert_eq. done.
    - unfold bind, sys_lseek. cbn. rewrite F1, lookup_insert_eq. cbn.
      rewrite (proj2 (Z.ltb_ge _ _)) by lia. cbn. rewrite Z.eqb_refl.
      eexists. split; [done|]. cbn. rewrite lookup_insert_eq, Z.add_0_l, Nat2Z.id. done. }
  destruct Hseek as (w2 & -> & F2 & I2 & S2). cbn [fst snd negb].
  rewrite bind_unfold. cbn [fst snd]. rewrite bind_unfold.
  destruct (fd_fuel (w_next_fd w) w2) as [|fuel] eqn:Hfu; [unfold fd_fuel in Hfu; lia|].
  cbn [read_file_part_loop]. rewrite bind_unfold.
  pose proof (sys_read_cases (w_next_fd w) (count - 0) w2 ino pos d F2 ltac:(by rewrite I2))
    as H3.
  destruct (sys_read _ _ w2) as [[n bs] w3]. cbn [fst snd].
  destruct H3 as (_ & _ & _ & [(e & [= -> ->] & _ & _ & Hsch) |(Hr & _)]).
  { rewrite S2 in Hsch. rewrite Hsch in S1. apply Forall_cons in S1 as [[] _]. }
  rewrite drop_ge in Hr by done. rewrite take_nil in Hr. injection Hr as -> ->.
  change (Z.of_nat 0) with 0. unfold ret at 1. cbn [Z.eqb fst snd]. unfold fd_close, bind. destruct (sys_close _ _). done.
Qed.

(** Extra X9: [rename] of an [oldpath] that does not exist fails, on POSIX and
    on Windows, and changes no path or file. *)
Theorem rename_missing_source (win32 : bool) (oldpath newpath : string) (w : world) :
  w_paths w !! oldpath = None ->
  let (r, w') := rename win32 oldpath newpath w in
  (exists m, r = Err m) /\ w_paths w' = w_paths w /\ w_inodes w' = w_inodes w.
Proof.
  intros Hp. unfold rename. destruct win32; cbn [negb]; rewrite bind_unfold.
  - unfold MoveFileExA, pop. cbn. destruct (w_sched w) as [|[|e|j] os]; cbn; rewrite ?Hp; cbn; eauto.
  - unfold sys_rename, pop. cbn. destruct (w_sched w) as [|[|e|j] os]; cbn; rewrite ?Hp; cbn; eauto.
Qed.

(** ** [write_file] and the other names of a file *)

Lemma sys_open_creat_trunc_effect (p : string) (w : world) :
  let (fd, w') := sys_open p O_WRONLY_CREAT_TRUNC w in
  (fd = -1 /\ w_paths w' = w_paths w /\ w_inodes w' = w_inodes w) \/
  (exists ino, w_fds w' !! fd = Some (ino, 0%nat) /\ w_inodes w' = <[ino := []]> (w_inodes w) /\
   ((w_paths w !! p = Some ino /\ w_paths w' = w_paths w) \/
    (w_paths w !! p = None /\ ino = w_next_ino w /\ w_paths w' = <[p := ino]> (w_paths w)))).
Proof.
  unfold sys_open, pop, new_fd, fail_with. cbn.
  destruct (w_sched w) as [|o os]; [|destruct o as [|e|j]]; cbn.
  all: try by left.
  all: destruct (w_paths w !! p) as [ino|] eqn:Hp; cbn.
  all: right; eexists; rewrite lookup_insert_eq; split; [reflexivity|]; split; [reflexivity|].
  all: first [left; done | right; done].
Qed.


Global Instance paths_same_preorder : PreOrder paths_same.
Proof. split; [intros w; done|intros w1 w2 w3 H12 H23; unfold paths_same in *; congruence]. Qed.

Lemma sys_write_paths_same (fd : Z) (bs : list byte) : keeps paths_same (sys_write fd bs).
Proof.
  intros w. unfold sys_write, paths_same, pop, fail_with. cbn.
  destruct (w_fds w !! fd) as [[ino off]|]; cbn; [|done].
  destruct (w_sched w) as [|[] os]; cbn; done.
Qed.

Lemma fd_close_paths_inodes (fd : Z) (w : world) :
  w_paths (snd (fd_close fd w)) = w_paths w /\ w_inodes (snd (fd_close fd w)) = w_inodes w.
Proof. pose proof (fd_close_effect fd w) as H. cbv zeta in H. tauto. Qed.

Lemma errno_error_state {A} (w : world) : snd (@errno_error A w) = w.
Proof. done. Qed.

(** Extra X10: [write_file] with [InPlace::no] whose [unlink] of [path] does
    not fail never changes what another path shows, even another name for the
    same file: it unlinks [path] and writes a new file. *)
Theorem write_file_replaces_path (path q : string) (data : list byte) (w : world) :
  ino_wf w -> q <> path ->
  (match w_sched w with Fail _ :: _ => False | _ => True end) ->
  file_at (snd (write_file path data InPlace_no w)) q = file_at w q.
Proof.
  intros Hwf Hq Hh.
  assert (H : w_paths (snd (write_file path data InPlace_no w)) !! q = w_paths w !! q /\
              forall i, (i < w_next_ino w)%nat ->
                w_inodes (snd (write_file path data InPlace_no w)) !! i = w_inodes w !! i).
  { unfold write_file. rewrite bind_unfold.
    pose proof (sys_unlink_effect path w Hh) as H1.
    destruct (sys_unlink path w) as [u w1]. cbn [fst snd] in *.
    destruct H1 as (P1 & I1 & _ & NI1 & _).
    rewrite bind_unfold.
    pose proof (sys_open_creat_trunc_effect path w1) as H2.
    destruct (sys_open path O_WRONLY_CREAT_TRUNC w1) as [fd w2]. cbn [fst snd].
    destruct H2 as [(-> & P2 & I2)|(ino & F2 & I2 & [[Hp _]|(_ & -> & P2)])].
    - rewrite Z.eqb_refl, errno_error_state, P2, I2, P1, I1, lookup_delete_ne by congruence.
      done.
    - rewrite P1, lookup_delete_eq in Hp. done.
    - destruct (fd =? -1).
      + rewrite errno_error_state, P2, lookup_insert_ne, P1, lookup_delete_ne by congruence.
        split; [done|]. intros i Hi. rewrite I2, lookup_insert_ne, I1 by lia. done.
      + rewrite bind_unfold.
        pose proof (write_fd_keeps (ino_frame fd (w_next_ino w1)) fd data (length data)
                      (sys_write_ino_frame fd (w_next_ino w1)) w2 ltac:(eauto)) as H3.
        destruct (write_fd fd data (length data) w2) as [r w3]. cbn [fst snd] in *.
        destruct H3 as (P3 & _ & I3).
        rewrite bind_unfold. pose proof (fd_close_paths_inodes fd w3) as [P4 I4].
        destruct (fd_close fd w3) as [[] w4]. cbn [fst snd] in *.
        unfold ret; cbn [fst snd]. rewrite P4, I4, P3, P2, lookup_insert_ne, P1, lookup_delete_ne by congruence.
        split; [done|]. intros i Hi. rewrite I3, I2, lookup_insert_ne, I1 by lia. done. }
  destruct H as [Hp Hi]. unfold file_at. rewrite Hp.
  destruct (w_paths w !! q) as [i|] eqn:Hpq; [|done]. apply Hi. by apply (Hwf q).
Qed.

Lemma write_file_existing_links (path q : string) (data : list byte) (w : world)
  (ino : nat) :
  w_paths w !! path = Some ino -> w_paths w !! q = Some ino ->
  match write_file path data InPlace_yes w with
  | (Ok _, w') => file_at w' q = Some data
  | (Err _, _) => True
  end.
Proof.
  intros Hp Hq.
  assert (HP : w_paths (snd (write_file path data InPlace_yes w)) = w_paths w).
  { unfold write_file. rewrite bind_unfold. cbn [ret fst snd]. rewrite bind_unfold.
    pose proof (sys_open_creat_trunc_effect path w) as H2.
    destruct (sys_open path O_WRONLY_CREAT_TRUNC w) as [fd w2]. cbn [fst snd].
    assert (P2 : w_paths w2 = w_paths w).
    { destruct H2 as [(_ & P2 & _)|(i & _ & _ & [[_ P2]|(Hn & _)])]; congruence. }
    destruct (fd =? -1); [by rewrite errno_error_state|].
    rewrite bind_unfold.
    pose proof (write_fd_keeps paths_same fd data (length data) (sys_write_paths_same fd) w2)
      as H3.
    destruct (write_fd fd data (length data) w2) as [r w3]. cbn [fst snd] in *.
    rewrite bind_unfold. pose proof (fd_close_paths_inodes fd w3) as [P4 _].
    destruct (fd_close fd w3) as [[] w4]. cbn [fst snd] in *. unfold ret. cbn [snd].
    unfold paths_same in H3. congruence. }
  pose proof (write_file_contents path data InPlace_yes w) as Hc.
  destruct (write_file path data InPlace_yes w) as [[] w'] eqn:E; [|done].
  cbn [snd] in HP. unfold file_at in *. rewrite HP in Hc |- *. rewrite Hp in Hc. rewrite Hq. done.
Qed.

(** Extra X11: [write_file] with [InPlace::yes] rewrites the existing file: when
    it succeeds, every other name for the file shows the new data. *)
Theorem write_file_in_place_updates_links (path q : string) (data : list byte) (w : world)
  (ino : nat) :
  w_paths w !! path = Some ino -> w_paths w !! q = Some ino ->
  match write_file path data InPlace_yes w with
  | (Ok _, w') => file_at w' q = Some data
  | (Err _, _) => True
  end.
Proof. apply write_file_existing_links. Qed.

Lemma write_file_after_unlink (path : string) (data : list byte) (w : world) :
  write_file path data InPlace_no w =
  write_file path data InPlace_yes (snd (sys_unlink path w)).
Proof. unfold write_file, bind at 1. cbn. by destruct (sys_unlink path w). Qed.

(** Extra X19: [write_file] with [InPlace::no] ignores the result of
    [unlink]: when unlinking an existing [path] fails, it goes on to open the
    same file with [O_TRUNC] and rewrite it, so that, when it succeeds, every
    other name for that file shows the new data. *)
Theorem write_file_unlink_failure_updates_links (path q : string) (data : list byte)
  (w : world) (ino : nat) (e : errno_t) (rest : list outcome) :
  w_paths w !! path = Some ino -> w_paths w !! q = Some ino ->
  w_sched w = Fail e :: rest ->
  match write_file path data InPlace_no w with
  | (Ok _, w') => file_at w' q = Some data
  | (Err _, _) => True
  end.
Proof.
  intros Hp Hq Hs. rewrite write_file_after_unlink.
  assert (HP : w_paths (snd (sys_unlink path w)) = w_paths w).
  { unfold sys_unlink, pop, fail_with. cbn. by rewrite Hp, Hs. }
  apply (write_file_existing_links path q data _ ino); by rewrite HP.
Qed.

(** ** [fallocate] *)

Lemma write_at_end (d bs : list byte) : write_at d (length d) bs = d ++ bs.
Proof.
  unfold write_at. rewrite Nat.sub_diag. cbn [repeat]. rewrite app_nil_r, firstn_all.
  rewrite drop_ge by lia. by rewrite app_nil_r.
Qed.

Lemma sys_posix_fallocate_nofail (fd : Z) (len : nat) (w : world) (ino off : nat)
  (data : list byte) :
  w_fds w !! fd = Some (ino, off) -> w_inodes w !! ino = Some data ->
  Forall nofail (w_sched w) ->
  let (r, w') := sys_posix_fallocate fd len w in
  r = None /\ w_paths w' = w_paths w /\
  w_inodes w' = <[ino := data ++ repeat Byte.x00 (len - length data)]> (w_inodes w).
Proof.
  intros Hfd Hino Hs. unfold sys_posix_fallocate. cbn [add_log w_fds]. rewrite Hfd.
  destruct (pop_nofail (add_log (Ev_fallocate fd len) w) Hs)
    as [[-> _]|(o & os & Ho & _ & _ & ->)].
  - cbn. rewrite Hino. done.
  - destruct o as [|e|k]; [| contradiction |]; cbn; rewrite Hino; done.
Qed.

Lemma sys_lseek_effect (fd off : Z) (wh : whence) (w : world) (ino cur : nat)
  (data : list byte) :
  w_fds w !! fd = Some (ino, cur) -> w_inodes w !! ino = Some data ->
  let pos := (match wh with
              | SEEK_SET => 0
              | SEEK_CUR => Z.of_nat cur
              | SEEK_END => Z.of_nat (length data)
              end + off) in
  0 <= pos ->
  let (r, w') := sys_lseek fd off wh w in
  r = pos /\ w_paths w' = w_paths w /\ w_inodes w' = w_inodes w /\
  w_fds w' = <[fd := (ino, Z.to_nat pos)]> (w_fds w) /\ w_sched w' = w_sched w.
Proof.
  intros Hfd Hino pos Hpos. unfold sys_lseek. cbn. rewrite Hfd, Hino. cbn.
  fold pos. rewrite (proj2 (Z.ltb_ge _ _)) by lia. done.
Qed.

Lemma sys_calloc_nofail (n : nat) (w : world) :
  Forall nofail (w_sched w) ->
  let (r, w') := sys_calloc n w in
  r = Some (repeat Byte.x00 n) /\ w_paths w' = w_paths w /\ w_inodes w' = w_inodes w /\
  w_fds w' = w_fds w /\ Forall nofail (w_sched w').
Proof.
  intros Hs. unfold sys_calloc.
  destruct (pop_nofail (add_log (Ev_calloc n) w) Hs) as [[-> _]|(o & os & Ho & _ & Hos & ->)].
  - cbn. done.
  - destruct o as [|e|k]; [| contradiction |]; cbn; done.
Qed.

Lemma fallocate_fallback_extends (fd : Z) (new_size : nat) (w : world) (ino off : nat)
  (data : list byte) :
  w_fds w !! fd = Some (ino, off) -> w_inodes w !! ino = Some data ->
  Forall nofail (w_sched w) ->
  let (r, w') := fallocate false fd new_size w in
  r = Ok tt /\ w_paths w' = w_paths w /\
  w_inodes w' = <[ino := data ++ repeat Byte.x00 (new_size - length data)]> (w_inodes w).
Proof.
  intros Hfd Hino Hs. unfold fallocate. rewrite bind_unfold.
  cbn [ret fst snd]. set (len := length data).
  rewrite bind_unfold.
  pose proof (sys_lseek_effect fd 0 SEEK_END w ino off data Hfd Hino ltac:(cbn; lia)) as H1.
  destruct (sys_lseek fd 0 SEEK_END w) as [sp w1]. cbn [fst snd]. cbv zeta in H1.
  destruct H1 as (-> & P1 & I1 & F1 & S1). rewrite Z.add_0_r, Nat2Z.id in F1.
  rewrite bind_unfold.
  assert (Hfd1 : w_fds w1 !! fd = Some (ino, len)) by (rewrite F1; apply lookup_insert_eq).
  assert (Hino1 : w_inodes w1 !! ino = Some data) by congruence.
  pose proof (sys_lseek_effect fd 0 SEEK_END w1 ino len data Hfd1 Hino1 ltac:(cbn; lia)) as H2.
  destruct (sys_lseek fd 0 SEEK_END w1) as [os w2]. cbn [fst snd]. cbv zeta in H2.
  destruct H2 as (-> & P2 & I2 & F2 & S2). rewrite Z.add_0_r, Nat2Z.id in F2 |- *.
  rewrite (proj2 (Z.eqb_neq _ _)) by lia.
  assert (Hfd2 : w_fds w2 !! fd = Some (ino, len)) by (rewrite F2; apply lookup_insert_eq).
  assert (Hino2 : w_inodes w2 !! ino = Some data) by congruence.
  fold len. destruct (new_size <=? len)%nat eqn:Hle.
  + apply Nat.leb_le in Hle. rewrite bind_unfold.
    pose proof (sys_lseek_effect fd (Z.of_nat len) SEEK_SET w2 ino len data Hfd2 Hino2
                  ltac:(cbn; lia)) as H3.
    destruct (sys_lseek fd (Z.of_nat len) SEEK_SET w2) as [r3 w3]. cbn [fst snd]. cbv zeta in H3.
    destruct H3 as (_ & P3 & I3 & _). cbn.
    replace (new_size - len)%nat with 0%nat by lia. cbn [repeat]. rewrite app_nil_r.
    split; [done|]. split; [congruence|]. rewrite I3, I2, I1. symmetry. by apply insert_id.
  + apply Nat.leb_gt in Hle. rewrite bind_unfold.
    pose proof (sys_calloc_nofail (new_size - len) w2 ltac:(congruence)) as H3.
    destruct (sys_calloc (new_size - len) w2) as [b w3]. cbn [fst snd].
    destruct H3 as (-> & P3 & I3 & F3 & S3).
    rewrite bind_unfold.
    assert (Hfd3 : w_fds w3 !! fd = Some (ino, (len + 0)%nat))
      by (rewrite F3, Hfd2, Nat.add_0_r; done).
    pose proof (write_fd_loop_spec (S (S (length (w_sched w3)))) fd
                  (repeat Byte.x00 (new_size - len)) 0 w3 ino len Hfd3 ltac:(lia)
                  ltac:(destruct (_ <? _)%nat; lia)) as H4.
    rewrite repeat_length in H4. unfold write_fd.
    destruct (write_fd_loop _ fd _ (new_size - len) 0 w3) as [r4 w4]. cbn [fst snd].
    destruct H4 as (P4 & consumed & Hc & H4). destruct r4 as [u|m].
    2:{ destruct H4 as (e & pre & -> & _). rewrite Hc in S3.
        exfalso. by apply (nofail_no_fail_suffix pre e (w_sched w4)). }
    destruct H4 as (_ & F4 & I4).
    rewrite (proj2 (Nat.ltb_lt 0 (new_size - len))) in I4 by lia.
    rewrite Nat.add_0_r, drop_0, I3, Hino2 in I4. cbn [default] in I4.
    rewrite write_at_end in I4.
    rewrite bind_unfold.
    assert (Hfd4 : w_fds w4 !! fd = Some (ino, (len + (new_size - len))%nat))
      by (rewrite F4; apply lookup_insert_eq).
    assert (Hino4 : w_inodes w4 !! ino = Some (data ++ repeat Byte.x00 (new_size - len)))
      by (rewrite I4; apply lookup_insert_eq).
    pose proof (sys_lseek_effect fd (Z.of_nat len) SEEK_SET w4 ino _ _ Hfd4 Hino4
                  ltac:(cbn; lia)) as H5.
    destruct (sys_lseek fd (Z.of_nat len) SEEK_SET w4) as [r5 w5]. cbn [fst snd]. cbv zeta in H5.
    destruct H5 as (_ & P5 & I5 & _). cbn.
    split; [done|]. split; [congruence|]. rewrite I5, I4, I2, I1.
    done.
Qed.

(** Extra X12: When no system call fails, [fallocate] on an open file succeeds
    and the file becomes its old bytes followed by zeros up to [new_size]
    (unchanged when already that long), with [posix_fallocate] as with the
    [lseek]/[write] fallback; no path changes. *)
Theorem fallocate_extends_with_zeros (HAVE_POSIX_FALLOCATE : bool) (fd : Z) (new_size : nat)
  (w : world) (ino off : nat) (data : list byte) :
  w_fds w !! fd = Some (ino, off) -> w_inodes w !! ino = Some data ->
  Forall nofail (w_sched w) ->
  let (r, w') := fallocate HAVE_POSIX_FALLOCATE fd new_size w in
  r = Ok tt /\ w_paths w' = w_paths w /\
  w_inodes w' = <[ino := data ++ repeat Byte.x00 (new_size - length data)]> (w_inodes w).
Proof.
  intros Hfd Hino Hs. destruct HAVE_POSIX_FALLOCATE; [|by apply (fallocate_fallback_extends _ _ _ _ off)].
  unfold fallocate. rewrite bind_unfold, bind_unfold.
  pose proof (sys_posix_fallocate_nofail fd new_size w ino off data Hfd Hino Hs) as H1.
  destruct (sys_posix_fallocate fd new_size w) as [r w1]. cbn [fst snd].
  destruct H1 as (-> & P1 & I1). done.
Qed.

(** Extra X13: When [posix_fallocate] fails with an error [e] other than
    [EINVAL], [fallocate] returns [strerror(e)] and changes nothing; with
    [EINVAL] it falls back to writing zeros, extending the file as without
    [posix_fallocate] when nothing else fails. *)
Theorem fallocate_posix_error (fd : Z) (new_size : nat) (w : world) (ino off : nat)
  (data : list byte) (e : errno_t) (rest : list outcome) :
  w_fds w !! fd = Some (ino, off) -> w_inodes w !! ino = Some data ->
  w_sched w = Fail e :: rest ->
  let (r, w') := fallocate true fd new_size w in
  (e <> EINVAL -> r = Err (strerror e) /\ w_paths w' = w_paths w /\
                  w_inodes w' = w_inodes w /\ w_fds w' = w_fds w) /\
  (e = EINVAL -> Forall nofail rest ->
   r = Ok tt /\ w_paths w' = w_paths w /\
   w_inodes w' = <[ino := data ++ repeat Byte.x00 (new_size - length data)]> (w_inodes w)).
Proof.
  intros Hfd Hino Hs. destruct (fallocate true fd new_size w) as [r w'] eqn:Ef. split.
  - intros Hne. revert Ef. unfold fallocate, bind, sys_posix_fallocate, pop, ret. cbn.
    rewrite Hfd. cbn. rewrite Hs. destruct e; try congruence; cbn; intros [= <- <-]; done.
  - intros -> Hr.
    set (w1 := set_sched rest (add_log (Ev_fallocate fd new_size) w)).
    assert (E : fallocate true fd new_size w = fallocate false fd new_size w1).
    { unfold fallocate, bind, sys_posix_fallocate, pop, ret. cbn.
      rewrite Hfd. cbn. rewrite Hs. cbn. reflexivity. }
    pose proof (fallocate_fallback_extends fd new_size w1 ino off data Hfd Hino Hr) as H.
    rewrite <- E, Ef in H. exact H.
Qed.

(** ** [create_cachedir_tag] *)

Lemma sys_open_creat_trunc_nofail (p : string) (w : world) :
  Forall nofail (w_sched w) ->
  let (fd, w') := sys_open p O_WRONLY_CREAT_TRUNC w in
  fd = w_next_fd w /\ Forall nofail (w_sched w') /\
  exists ino, w_paths w' !! p = Some ino /\ w_fds w' = <[fd := (ino, 0%nat)]> (w_fds w) /\
              w_inodes w' = <[ino := []]> (w_inodes w).
Proof.
  intros Hs. destruct (w_paths w !! p) as [ino|] eqn:Hp.
  - pose proof (sys_open_nofail_existing p O_WRONLY_CREAT_TRUNC w ino Hs Hp eq_refl) as H.
    destruct (sys_open p O_WRONLY_CREAT_TRUNC w) as [fd w'].
    destruct H as (-> & P & _ & _ & F & I & S). cbn in I.
    split; [done|]. split; [done|]. exists ino. by rewrite P.
  - pose proof (sys_open_nofail_absent p O_WRONLY_CREAT_TRUNC w Hs Hp eq_refl) as H.
    destruct (sys_open p O_WRONLY_CREAT_TRUNC w) as [fd w'].
    destruct H as (-> & P & _ & _ & F & I & S).
    split; [done|]. split; [done|]. exists (w_next_ino w). by rewrite P, lookup_insert_eq.
Qed.

Lemma write_file_nofail (path : string) (data : list byte) (in_place : InPlace) (w : world) :
  0 <= w_next_fd w -> Forall nofail (w_sched w) ->
  let (r, w') := write_file path data in_place w in
  r = Ok tt /\ file_at w' path = Some data.
Proof.
  intros H0 Hs. unfold write_file. rewrite bind_unfold.
  assert (H1 : Forall nofail (w_sched (snd (match in_place with
                                             | InPlace_no => sys_unlink path
                                             | InPlace_yes => ret 0 end w))) /\
               w_next_fd (snd (match in_place with
                               | InPlace_no => sys_unlink path
                               | InPlace_yes => ret 0 end w)) = w_next_fd w).
  { destruct in_place; [|done].
    pose proof (sys_unlink_effect path w (nofail_head _ Hs)) as H. cbv zeta in H.
    split; [by apply H|tauto]. }
  destruct (match in_place with InPlace_no => sys_unlink path | InPlace_yes => ret 0 end w)
    as [u w1]. cbn [fst snd] in *. destruct H1 as [S1 NF1].
  rewrite bind_unfold.
  pose proof (sys_open_creat_trunc_nofail path w1 S1) as H2.
  destruct (sys_open path O_WRONLY_CREAT_TRUNC w1) as [fd w2]. cbn [fst snd].
  destruct H2 as (-> & S2 & ino & P2 & F2 & I2).
  rewrite (proj2 (Z.eqb_neq _ _)) by lia.
  rewrite bind_unfold.
  assert (Hfd : w_fds w2 !! w_next_fd w1 = Some (ino, (0 + 0)%nat))
    by (rewrite F2; apply lookup_insert_eq).
  pose proof (write_fd_loop_spec (S (S (length (w_sched w2)))) (w_next_fd w1) data 0 w2 ino 0
                Hfd ltac:(lia) ltac:(destruct (_ <? _)%nat; lia)) as H3.
  unfold write_fd.
  destruct (write_fd_loop _ _ data (length data) 0 w2) as [r w3]. cbn [fst snd].
  destruct H3 as (P3 & consumed & Hc & H3). destruct r as [u'|m].
  2:{ destruct H3 as (e & pre & -> & _). rewrite Hc in S2.
      exfalso. by apply (nofail_no_fail_suffix pre e (w_sched w3)). }
  destruct H3 as (_ & _ & I3).
  rewrite bind_unfold. pose proof (fd_close_paths_inodes (w_next_fd w1) w3) as [P4 I4].
  destruct (fd_close _ w3) as [[] w4]. cbn [fst snd] in *. unfold ret.
  destruct u'. split; [done|]. unfold file_at. rewrite P4, I4, P3, P2, I3.
  destruct (0 <? length data)%nat eqn:Hl.
  - rewrite lookup_insert_eq, I2, lookup_insert_eq. cbn [default]. by rewrite Nat.add_0_r, drop_0, write_at_nil_0.
  - rewrite I2, lookup_insert_eq. apply Nat.ltb_ge in Hl.
    destruct data; [done|cbn in Hl; lia].
Qed.

Lemma write_file_sv_eq (path : string) (data : string) (in_place : InPlace) :
  write_file_sv path data in_place = write_file path (string_bytes data) in_place.
Proof. reflexivity. Qed.

(** Extra X14: When [dir/CACHEDIR.TAG] exists, whatever it holds,
    [create_cachedir_tag] only [stat]s it and changes nothing. *)
Theorem create_cachedir_tag_existing (in_place_default : InPlace) (dir : string) (w : world)
  (d : list byte) :
  file_at w (cachedir_tag_path dir) = Some d ->
  create_cachedir_tag in_place_default dir w = (tt, add_log (Ev_stat (cachedir_tag_path dir)) w).
Proof.
  intros Hd. unfold create_cachedir_tag, bind, sys_stat. cbv zeta.
  assert (E : file_at (add_log (Ev_stat (cachedir_tag_path dir)) w) (cachedir_tag_path dir) = Some d)
    by exact Hd.
  rewrite E. done.
Qed.

(** Extra X15: When [dir/CACHEDIR.TAG] does not exist and no system call fails,
    [create_cachedir_tag] creates it holding the cache directory tag text. *)
Theorem create_cachedir_tag_creates (in_place_default : InPlace) (dir : string) (w : world) :
  file_at w (cachedir_tag_path dir) = None ->
  0 <= w_next_fd w -> Forall nofail (w_sched w) ->
  file_at (snd (create_cachedir_tag in_place_default dir w)) (cachedir_tag_path dir) =
  Some (string_bytes cachedir_tag).
Proof.
  intros Hn H0 Hs. unfold create_cachedir_tag. cbv zeta. rewrite bind_unfold.
  unfold sys_stat at 1 2.
  assert (E : file_at (add_log (Ev_stat (cachedir_tag_path dir)) w) (cachedir_tag_path dir) = None)
    by exact Hn.
  rewrite E. cbn [fail_with fst snd]. rewrite bind_unfold, write_file_sv_eq.
  pose proof (write_file_nofail (cachedir_tag_path dir) (string_bytes cachedir_tag)
                in_place_default (set_errno ENOENT (add_log (Ev_stat (cachedir_tag_path dir)) w))
                H0 Hs) as H.
  destruct (write_file _ _ _ _) as [[] w1]; destruct H as [_ H]; done.
Qed.

(** ** [join] and [starts_with] *)

Lemma string_app_cons (x : ascii) (a b : string) :
  String.append (String x a) b = String x (String.append a b).
Proof. reflexivity. Qed.

Lemma string_app_assoc (a b c : string) :
  String.append a (String.append b c) = String.append (String.append a b) c.
Proof. induction a as [|x a IH]; [done|]. rewrite !string_app_cons. by f_equal. Qed.

Lemma string_app_nil_r (a : string) : String.append a "" = a.
Proof. induction a as [|x a IH]; [done|]. rewrite !string_app_cons. by f_equal. Qed.

Lemma concat_empty_cons (z : string) (zs : list string) :
  String.concat "" (z :: zs) = String.append z (String.concat "" zs).
Proof. destruct zs; [by rewrite string_app_nil_r|reflexivity]. Qed.

Section join_props.
Context {T : Type} (to_string : T -> string).

Lemma join_loop_tail (delimiter : string) (it : nat) (rest : list T) (result : string) :
  it <> 0%nat ->
  join_loop to_string delimiter it rest result =
  String.append result (String.concat "" (map (fun x => String.append delimiter (to_string x)) rest)).
Proof.
  revert it result. induction rest as [|x rest IH]; intros it result Hit; cbn [join_loop map].
  - by rewrite string_app_nil_r.
  - destruct it as [|it]; [done|]. cbn [negb Nat.eqb]. rewrite IH by done.
    cbn [map]. rewrite concat_empty_cons, <- !string_app_assoc. done.
Qed.

Lemma concat_cons_sep (delimiter : string) (x : string) (xs : list string) :
  String.concat delimiter (x :: xs) =
  String.append x (String.concat "" (map (fun y => String.append delimiter y) xs)).
Proof.
  revert x. induction xs as [|y xs IH]; intros x.
  - cbn. by rewrite string_app_nil_r.
  - change (String.concat delimiter (x :: y :: xs))
      with (String.append x (String.append delimiter (String.concat delimiter (y :: xs)))).
    rewrite IH. cbn [map]. rewrite concat_empty_cons, <- !string_app_assoc. done.
Qed.

(** Extra X16: [join] puts the delimiter between consecutive elements only: it
    is [String.concat delimiter] of the elements' [to_string], so an empty
    container gives the empty string and there is no leading or trailing
    delimiter. *)
Theorem join_is_concat (elements : list T) (delimiter : string) :
  join to_string elements delimiter = String.concat delimiter (map to_string elements).
Proof.
  unfold join, join_iter. destruct elements as [|x xs]; [done|].
  cbn [join_loop negb Nat.eqb]. rewrite join_loop_tail by done.
  cbn [map]. rewrite concat_cons_sep, map_map. done.
Qed.

End join_props.

(** Extra X17: [starts_with(std::string_view, std::string_view)] is true exactly
    when [string] is [prefix] followed by some string. *)
Theorem starts_with_sv_iff_prefix (s p : list ascii) :
  starts_with_sv s p = true <-> exists t, s = p ++ t.
Proof.
  unfold starts_with_sv. rewrite bool_decide_eq_true. split.
  - intros H. exists (drop (length p) s). rewrite <- H at 1. by rewrite take_drop.
  - intros [t ->]. apply take_app_length.
Qed.

(** ** Witnesses of the further properties *)

Lemma file_world_fd_wf : fd_wf file_world.
Proof. split; [cbn; lia|intros k _; apply lookup_empty]. Defined.

Lemma file_world_ino_wf : ino_wf file_world.
Proof. intros p i H. cbn in H. apply lookup_singleton_Some in H as [_ <-]. cbn. lia. Defined.

Lemma read_file_closes_fd_witness :
  fd_wf file_world /\ w_fds (snd (read_file "s" 0 file_world)) = w_fds file_world.
Proof. split; [exact file_world_fd_wf|apply (read_file_closes_fd "s" 0 file_world file_world_fd_wf)]. Defined.

Lemma copy_file_copies_witness :
  (file_at file_world "s" = Some [Byte.x01; Byte.x02; Byte.x03] /\ "s"%string <> "d"%string /\
   ino_wf file_world /\ 0 <= w_next_fd file_world /\ Forall nofail (w_sched file_world) /\
   w_paths file_world !! tmp_name "d" (w_next_ino file_world) = None) /\
  let (r, w') := copy_file false "s" "d" ViaTmpFile_yes file_world in
  r = Ok tt /\ file_at w' "d" = Some [Byte.x01; Byte.x02; Byte.x03] /\
  file_at w' "s" = Some [Byte.x01; Byte.x02; Byte.x03] /\
  w_paths w' !! tmp_name "d" (w_next_ino file_world) = None.
Proof.
  assert (H1 : file_at file_world "s" = Some [Byte.x01; Byte.x02; Byte.x03]) by reflexivity.
  assert (H2 : "s"%string <> "d"%string) by discriminate.
  assert (H4 : 0 <= w_next_fd file_world) by (cbn; lia).
  assert (H5 : Forall nofail (w_sched file_world)) by constructor.
  assert (H6 : w_paths file_world !! tmp_name "d" (w_next_ino file_world) = None) by reflexivity.
  split; [exact (conj H1 (conj H2 (conj file_world_ino_wf (conj H4 (conj H5 H6)))))|].
  exact (copy_file_copies false "s" "d" ViaTmpFile_yes file_world _ H1 H2 file_world_ino_wf H4 H5 H6).
Defined.

Lemma link_world_ino_wf : ino_wf link_world.
Proof.
  intros p i H. cbn in H. apply lookup_insert_Some in H as [[_ <-]|[_ H]]; [cbn; lia|].
  apply lookup_singleton_Some in H as [_ <-]. cbn. lia.
Defined.

Lemma read_file_part_closes_fd_witness :
  fd_wf file_world /\ w_fds (snd (read_file_part "s" 1 2 file_world)) = w_fds file_world.
Proof.
  split; [exact file_world_fd_wf|].
  apply (read_file_part_closes_fd "s" 1 2 file_world file_world_fd_wf).
Defined.

Lemma write_file_closes_fd_witness :
  fd_wf file_world /\
  w_fds (snd (write_file "s" [Byte.x07] InPlace_no file_world)) = w_fds file_world.
Proof.
  split; [exact file_world_fd_wf|].
  apply (write_file_closes_fd "s" [Byte.x07] InPlace_no file_world file_world_fd_wf).
Defined.

Lemma copy_file_closes_fds_witness :
  fd_wf file_world /\
  w_fds (snd (copy_file false "s" "d" ViaTmpFile_yes file_world)) = w_fds file_world.
Proof.
  split; [exact file_world_fd_wf|].
  apply (copy_file_closes_fds false "s" "d" ViaTmpFile_yes file_world file_world_fd_wf).
Defined.

Lemma read_file_missing_witness :
  w_paths file_world !! "x"%string = None /\
  let (r, w') := read_file "x" 0 file_world in
  (exists e, r = Err (strerror e)) /\ ((0 = 0)%nat -> r = Err (strerror ENOENT)) /\
  w_paths w' = w_paths file_world /\ w_inodes w' = w_inodes file_world /\
  w_fds w' = w_fds file_world.
Proof.
  assert (H : w_paths file_world !! "x"%string = None) by reflexivity.
  split; [exact H|]. exact (read_file_missing "x" 0 file_world H).
Defined.

Lemma copy_file_missing_src_witness :
  w_paths file_world !! "x"%string = None /\
  let (r, w') := copy_file false "x" "s" ViaTmpFile_no file_world in
  (exists e, r = Err (String.append "Failed to open " (String.append "x"
                        (String.append " for reading: " (strerror e))))) /\
  w_paths w' = w_paths file_world /\ w_inodes w' = w_inodes file_world /\
  w_fds w' = w_fds file_world.
Proof.
  assert (H : w_paths file_world !! "x"%string = None) by reflexivity.
  split; [exact H|]. exact (copy_file_missing_src false "x" "s" ViaTmpFile_no file_world H).
Defined.

Lemma read_file_part_past_end_witness :
  (file_at file_world "s" = Some [Byte.x01; Byte.x02; Byte.x03] /\
   (length [Byte.x01; Byte.x02; Byte.x03] <= 5)%nat /\ Z.of_nat 5 < 2 ^ 63 /\ (0 < 2)%nat /\
   0 <= w_next_fd file_world /\ Forall nofail (w_sched file_world)) /\
  fst (read_file_part "s" 5 2 file_world) = Ok [].
Proof.
  assert (H1 : file_at file_world "s" = Some [Byte.x01; Byte.x02; Byte.x03]) by reflexivity.
  assert (H2 : (length [Byte.x01; Byte.x02; Byte.x03] <= 5)%nat) by (cbn; lia).
  assert (H2' : Z.of_nat 5 < 2 ^ 63) by (vm_compute; reflexivity).
  assert (H3 : (0 < 2)%nat) by lia.
  assert (H4 : 0 <= w_next_fd file_world) by (cbn; lia).
  assert (H5 : Forall nofail (w_sched file_world)) by constructor.
  split; [exact (conj H1 (conj H2 (conj H2' (conj H3 (conj H4 H5)))))|].
  exact (read_file_part_past_end "s" 5 2 file_world _ H1 H2 H2' H3 H4 H5).
Defined.

Lemma rename_missing_source_witness :
  w_paths file_world !! "x"%string = None /\
  let (r, w') := rename false "x" "s" file_world in
  (exists m, r = Err m) /\ w_paths w' = w_paths file_world /\ w_inodes w' = w_inodes file_world.
Proof.
  assert (H : w_paths file_world !! "x"%string = None) by reflexivity.
  split; [exact H|]. exact (rename_missing_source false "x" "s" file_world H).
Defined.

Lemma write_file_replaces_path_witness :
  (ino_wf link_world /\ "t"%string <> "s"%string /\
   (match w_sched link_world with Fail _ :: _ => False | _ => True end)) /\
  file_at (snd (write_file "s" [Byte.x07] InPlace_no link_world)) "t" = file_at link_world "t".
Proof.
  assert (H : "t"%string <> "s"%string) by discriminate.
  assert (Hh : match w_sched link_world with Fail _ :: _ => False | _ => True end) by exact I.
  split; [exact (conj link_world_ino_wf (conj H Hh))|].
  exact (write_file_replaces_path "s" "t" [Byte.x07] link_world link_world_ino_wf H Hh).
Defined.

Lemma write_file_in_place_updates_links_witness :
  (w_paths link_world !! "s"%string = Some 0%nat /\ w_paths link_world !! "t"%string = Some 0%nat) /\
  match write_file "s" [Byte.x07] InPlace_yes link_world with
  | (Ok _, w') => file_at w' "t" = Some [Byte.x07]
  | (Err _, _) => True
  end.
Proof.
  assert (H1 : w_paths link_world !! "s"%string = Some 0%nat) by reflexivity.
  assert (H2 : w_paths link_world !! "t"%string = Some 0%nat) by reflexivity.
  split; [exact (conj H1 H2)|].
  exact (write_file_in_place_updates_links "s" "t" [Byte.x07] link_world 0 H1 H2).
Defined.

Lemma write_file_unlink_failure_updates_links_witness :
  (w_paths locked_link_world !! "s"%string = Some 0%nat /\
   w_paths locked_link_world !! "t"%string = Some 0%nat /\
   w_sched locked_link_world = Fail EACCES :: []) /\
  match write_file "s" [Byte.x07] InPlace_no locked_link_world with
  | (Ok _, w') => file_at w' "t" = Some [Byte.x07]
  | (Err _, _) => True
  end.
Proof.
  assert (H1 : w_paths locked_link_world !! "s"%string = Some 0%nat) by reflexivity.
  assert (H2 : w_paths locked_link_world !! "t"%string = Some 0%nat) by reflexivity.
  assert (H3 : w_sched locked_link_world = Fail EACCES :: []) by reflexivity.
  split; [exact (conj H1 (conj H2 H3))|].
  exact (write_file_unlink_failure_updates_links "s" "t" [Byte.x07] locked_link_world 0
           EACCES [] H1 H2 H3).
Defined.

Lemma fallocate_extends_with_zeros_witness :
  (w_fds open_world !! 3 = Some (0%nat, 0%nat) /\
   w_inodes open_world !! 0%nat = Some [Byte.x01; Byte.x02] /\
   Forall nofail (w_sched open_world)) /\
  let (r, w') := fallocate false 3 5 open_world in
  r = Ok tt /\ w_paths w' = w_paths open_world /\
  w_inodes w' = <[0%nat := [Byte.x01; Byte.x02] ++ repeat Byte.x00 (5 - length [Byte.x01; Byte.x02])]>
                  (w_inodes open_world).
Proof.
  assert (H1 : w_fds open_world !! 3 = Some (0%nat, 0%nat)) by reflexivity.
  assert (H2 : w_inodes open_world !! 0%nat = Some [Byte.x01; Byte.x02]) by reflexivity.
  assert (H3 : Forall nofail (w_sched open_world)) by constructor.
  split; [exact (conj H1 (conj H2 H3))|].
  exact (fallocate_extends_with_zeros false 3 5 open_world 0 0 _ H1 H2 H3).
Defined.

Lemma fallocate_posix_error_witness :
  (w_fds (set_sched [Fail ENOSPC] open_world) !! 3 = Some (0%nat, 0%nat) /\
   w_inodes (set_sched [Fail ENOSPC] open_world) !! 0%nat = Some [Byte.x01; Byte.x02] /\
   w_sched (set_sched [Fail ENOSPC] open_world) = Fail ENOSPC :: []) /\
  let w := set_sched [Fail ENOSPC] open_world in
  let (r, w') := fallocate true 3 5 w in
  (ENOSPC <> EINVAL -> r = Err (strerror ENOSPC) /\ w_paths w' = w_paths w /\
                       w_inodes w' = w_inodes w /\ w_fds w' = w_fds w) /\
  (ENOSPC = EINVAL -> Forall nofail [] ->
   r = Ok tt /\ w_paths w' = w_paths w /\
   w_inodes w' = <[0%nat := [Byte.x01; Byte.x02] ++ repeat Byte.x00 (5 - length [Byte.x01; Byte.x02])]>
                   (w_inodes w)).
Proof.
  assert (H1 : w_fds (set_sched [Fail ENOSPC] open_world) !! 3 = Some (0%nat, 0%nat)) by reflexivity.
  assert (H2 : w_inodes (set_sched [Fail ENOSPC] open_world) !! 0%nat = Some [Byte.x01; Byte.x02])
    by reflexivity.
  assert (H3 : w_sched (set_sched [Fail ENOSPC] open_world) = Fail ENOSPC :: []) by reflexivity.
  split; [exact (conj H1 (conj H2 H3))|].
  exact (fallocate_posix_error 3 5 (set_sched [Fail ENOSPC] open_world) 0 0 _ ENOSPC [] H1 H2 H3).
Defined.

Lemma create_cachedir_tag_existing_witness :
  file_at tag_world (cachedir_tag_path "cache") = Some [] /\
  create_cachedir_tag InPlace_no "cache" tag_world =
  (tt, add_log (Ev_stat (cachedir_tag_path "cache")) tag_world).
Proof.
  assert (H : file_at tag_world (cachedir_tag_path "cache") = Some []) by reflexivity.
  split; [exact H|]. exact (create_cachedir_tag_existing InPlace_no "cache" tag_world [] H).
Defined.

Lemma create_cachedir_tag_creates_witness :
  (file_at file_world (cachedir_tag_path "cache") = None /\ 0 <= w_next_fd file_world /\
   Forall nofail (w_sched file_world)) /\
  file_at (snd (create_cachedir_tag InPlace_no "cache" file_world)) (cachedir_tag_path "cache") =
  Some (string_bytes cachedir_tag).
Proof.
  assert (H1 : file_at file_world (cachedir_tag_path "cache") = None) by reflexivity.
  assert (H2 : 0 <= w_next_fd file_world) by (cbn; lia).
  assert (H3 : Forall nofail (w_sched file_world)) by constructor.
  split; [exact (conj H1 (conj H2 H3))|].
  exact (create_cachedir_tag_creates InPlace_no "cache" file_world H1 H2 H3).
Defined.
